(** * The scene of mol-gl: registry, commit protocol, visibility fingerprint
      and aggregate statistics

    A shallow embedding of [src/mol-gl/scene.ts].  The closure returned by
    [Scene.create] owns a dozen mutable variables; here they are the fields
    of the record [Scene], and every function of the closure becomes a
    function that takes the scene (and the outside world) and returns the
    new one.

    Numbers.  JavaScript numbers are IEEE 754 doubles, so the published
    scalars (alpha, transparency average, marker average, time stamps) are
    primitive floats.  Identities, program ids, material ids, loop counters
    and the visibility hash only ever hold integers, so they are in [Z]; the
    one place where the code forces a 32 bit integer, [| 0], is written out
    as [toInt32]. *)

From Stdlib Require Import ZArith Floats Uint63 Lia.
From stdpp Require Import base option list gmap strings sorting.

Local Open Scope Z_scope.

(** ** Data model *)

(** [GraphicsRenderObject]: the externally owned descriptor.  The scene reads
    its [id] (for the warning) and its [type] (for the partition) and uses
    the object itself as the key of [renderableMap] and of the queue; here
    an object is its record, so two descriptors are the same object when
    they agree on [id] and [type]. *)
Record GraphicsRenderObject := {
  o_id : Z;
  o_type : string
}.

#[global] Instance GraphicsRenderObject_eq_dec : EqDecision GraphicsRenderObject.
Proof. solve_decision. Defined.

#[global] Instance GraphicsRenderObject_countable : Countable GraphicsRenderObject.
Proof.
  refine (inj_countable' (fun o => (o_id o, o_type o))
                         (fun p => {| o_id := p.1; o_type := p.2 |}) _).
  intros []; reflexivity.
Defined.

(** [GraphicsRenderable]: the drawable instance.  Only its immutable fields
    live in the record; its [state], [values] and programs are shared with
    the outside and are read through the world (see [External]).  [forEach]
    of the scene, which only hands [renderableMap] to a visitor, is not
    modelled. *)
Record GraphicsRenderable := {
  r_id : Z;
  r_materialId : Z
}.

#[global] Instance GraphicsRenderable_eq_dec : EqDecision GraphicsRenderable.
Proof. solve_decision. Defined.

Record Program := { p_id : Z }.

(** The two render variants [renderableSort] asks for. *)
Inductive GraphicsRenderVariant := colorBlended | colorWboit.

Record Sphere3D := {
  center : float * float * float;
  radius : float
}.

(** [renderable.state] *)
Record RenderableState := {
  visible : bool;
  alphaFactor : float
}.

(** [renderable.values]; a field [v_x] stands for [values.x.ref.value].
    [dXrayShaded] exists for some renderables only (the mesh schema has it),
    hence the option. *)
Record RenderableValues := {
  v_alpha : float;
  v_transparencyAverage : float;
  v_dXrayShaded : option bool;
  v_markerAverage : float;
  v_boundingSphere : Sphere3D
}.

(** ** The commit queue *)

(** Modelled from the spec: the class [CommitQueue] of mol-gl/commit-queue
    (the scene imports it, its file is not among the sources).  Section 4.1:
    two pending sets, kept in insertion order; [add] cancels a pending
    removal instead of queueing, [remove] is symmetric; the two [tryGet]
    pop one pending entry; [isEmpty] holds when both are empty. *)
Record CommitQueue := {
  removeList : list GraphicsRenderObject;
  addList : list GraphicsRenderObject
}.

Definition emptyQueue : CommitQueue := {| removeList := []; addList := [] |}.

Definition without (o : GraphicsRenderObject) (l : list GraphicsRenderObject) :=
  List.filter (fun x => bool_decide (x <> o)) l.

Definition queue_add (o : GraphicsRenderObject) (q : CommitQueue) : CommitQueue :=
  if bool_decide (o ∈ removeList q)
  then {| removeList := without o (removeList q); addList := addList q |}
  else if bool_decide (o ∈ addList q) then q
  else {| removeList := removeList q; addList := addList q ++ [o] |}.

Definition queue_remove (o : GraphicsRenderObject) (q : CommitQueue) : CommitQueue :=
  if bool_decide (o ∈ addList q)
  then {| removeList := removeList q; addList := without o (addList q) |}
  else if bool_decide (o ∈ removeList q) then q
  else {| removeList := removeList q ++ [o]; addList := addList q |}.

Definition setRemoveList (l : list GraphicsRenderObject) (q : CommitQueue) : CommitQueue :=
  {| removeList := l; addList := addList q |}.

Definition setAddList (l : list GraphicsRenderObject) (q : CommitQueue) : CommitQueue :=
  {| removeList := removeList q; addList := l |}.

Definition tryGetRemove (q : CommitQueue) : option GraphicsRenderObject * CommitQueue :=
  match removeList q with
  | [] => (None, q)
  | o :: rest => (Some o, setRemoveList rest q)
  end.

Definition tryGetAdd (q : CommitQueue) : option GraphicsRenderObject * CommitQueue :=
  match addList q with
  | [] => (None, q)
  | o :: rest => (Some o, setAddList rest q)
  end.

Definition isEmpty (q : CommitQueue) : bool :=
  bool_decide (removeList q = []) && bool_decide (addList q = []).

(** Number of pending operations. *)
Definition pending (q : CommitQueue) : nat :=
  (length (removeList q) + length (addList q))%nat.

(** ** What the scene consumes from outside

    Everything the scene calls but does not define.  [World] is the state of
    the outside: the GPU resources, the console, and the published state
    and values of every drawable, which other code mutates between two calls
    of the scene.  The context [ctx] and the [variants] given to
    [Scene.create] are fixed for a scene and only handed on to the factory,
    so they are part of the world.  The helpers [arraySetRemove]
    (mol-util/array), [hash1] (mol-data/util), [clamp]
    (mol-math/interpolate) and the [BoundaryHelper] class are imported by
    the scene and not among the sources: they are parameters.  [bh_reset]
    is the helper after [reset()]. *)
Class External := {
  World : Type;
  createRenderable : World -> GraphicsRenderObject -> GraphicsRenderable * World;
  dispose : World -> GraphicsRenderable -> World;
  renderable_update : World -> GraphicsRenderable -> World;
  console_warn : World -> GraphicsRenderObject -> World;
  getProgram : World -> GraphicsRenderable -> GraphicsRenderVariant -> option Program;
  state : World -> GraphicsRenderable -> RenderableState;
  values : World -> GraphicsRenderable -> RenderableValues;
  arraySetRemove : list GraphicsRenderable -> GraphicsRenderable -> list GraphicsRenderable;
  hash1 : Z -> Z;
  clamp : float -> float -> float -> float;
  BoundaryHelper : Type;
  bh_reset : BoundaryHelper;
  includeSphere : BoundaryHelper -> Sphere3D -> BoundaryHelper;
  finishedIncludeStep : BoundaryHelper -> BoundaryHelper;
  radiusSphere : BoundaryHelper -> Sphere3D -> BoundaryHelper;
  getSphere : BoundaryHelper -> Sphere3D
}.

(** ** The scene state: the variables captured by the closure *)
Record Scene := {
  renderableMap : gmap GraphicsRenderObject GraphicsRenderable;
  renderables : list GraphicsRenderable;
  boundingSphere : Sphere3D;
  boundingSphereVisible : Sphere3D;
  primitives : list GraphicsRenderable;
  volumes : list GraphicsRenderable;
  boundingSphereDirty : bool;
  boundingSphereVisibleDirty : bool;
  markerAverage : float;
  opacityAverage : float;
  commitQueue : CommitQueue;
  visibleHash : Z
}.

(** [Sphere3D()]: the zero sphere a new scene starts with. *)
Definition Sphere3D_zero : Sphere3D :=
  {| center := (0%float, 0%float, 0%float); radius := 0%float |}.

(** [Scene.create]: the initial values of the captured variables. *)
Definition create : Scene := {|
  renderableMap := ∅;
  renderables := [];
  boundingSphere := Sphere3D_zero;
  boundingSphereVisible := Sphere3D_zero;
  primitives := [];
  volumes := [];
  boundingSphereDirty := true;
  boundingSphereVisibleDirty := true;
  markerAverage := 0%float;
  opacityAverage := 0%float;
  commitQueue := emptyQueue;
  visibleHash := -1
|}.

(** Field updates used below. *)
Definition setQueue (q : CommitQueue) (s : Scene) : Scene := {|
  renderableMap := renderableMap s; renderables := renderables s;
  boundingSphere := boundingSphere s; boundingSphereVisible := boundingSphereVisible s;
  primitives := primitives s; volumes := volumes s;
  boundingSphereDirty := boundingSphereDirty s;
  boundingSphereVisibleDirty := boundingSphereVisibleDirty s;
  markerAverage := markerAverage s; opacityAverage := opacityAverage s;
  commitQueue := q; visibleHash := visibleHash s
|}.

Definition setRenderables (l : list GraphicsRenderable) (s : Scene) : Scene := {|
  renderableMap := renderableMap s; renderables := l;
  boundingSphere := boundingSphere s; boundingSphereVisible := boundingSphereVisible s;
  primitives := primitives s; volumes := volumes s;
  boundingSphereDirty := boundingSphereDirty s;
  boundingSphereVisibleDirty := boundingSphereVisibleDirty s;
  markerAverage := markerAverage s; opacityAverage := opacityAverage s;
  commitQueue := commitQueue s; visibleHash := visibleHash s
|}.

Definition setAverages (marker opacity : float) (s : Scene) : Scene := {|
  renderableMap := renderableMap s; renderables := renderables s;
  boundingSphere := boundingSphere s; boundingSphereVisible := boundingSphereVisible s;
  primitives := primitives s; volumes := volumes s;
  boundingSphereDirty := boundingSphereDirty s;
  boundingSphereVisibleDirty := boundingSphereVisibleDirty s;
  markerAverage := marker; opacityAverage := opacity;
  commitQueue := commitQueue s; visibleHash := visibleHash s
|}.

Definition setDirty (all vis : bool) (s : Scene) : Scene := {|
  renderableMap := renderableMap s; renderables := renderables s;
  boundingSphere := boundingSphere s; boundingSphereVisible := boundingSphereVisible s;
  primitives := primitives s; volumes := volumes s;
  boundingSphereDirty := all;
  boundingSphereVisibleDirty := vis;
  markerAverage := markerAverage s; opacityAverage := opacityAverage s;
  commitQueue := commitQueue s; visibleHash := visibleHash s
|}.

(** [x | 0]: reduction to a signed 32 bit integer. *)
Definition toInt32 (z : Z) : Z := (z + 2 ^ 31) mod 2 ^ 32 - 2 ^ 31.

(** A number in a condition is false when it is 0, -0 or NaN. *)
Definition truthy (x : float) : bool :=
  negb (PrimFloat.eqb x 0%float || PrimFloat.is_nan x).

(** An integer valued number as a double (exact below 2^53). *)
Definition toFloat (n : Z) : float := PrimFloat.of_uint63 (Uint63.of_Z n).

Definition commitBulkSize : Z := 100.

(** [Number.MAX_VALUE], the default budget of the public [commit]. *)
Definition Number_MAX_VALUE : float := 0x1.fffffffffffffp+1023%float.

(** ** [Array.prototype.sort]

    The engine's sort, given a comparator that may throw ([None]).  Not part
    of the sources: modelled as a stable insertion sort.  For a comparator
    that is a consistent ordering every conforming engine returns the same
    array; an exception of the comparator is passed on. *)
Fixpoint insertSorted {A} (cmp : A -> A -> option Z) (x : A) (l : list A)
  : option (list A) :=
  match l with
  | [] => Some [x]
  | y :: l' =>
      c ← cmp x y;
      if c <=? 0 then Some (x :: y :: l')
      else r ← insertSorted cmp x l'; Some (y :: r)
  end.

Fixpoint arraySort {A} (cmp : A -> A -> option Z) (l : list A) : option (list A) :=
  match l with
  | [] => Some []
  | x :: l' => r ← arraySort cmp l'; insertSorted cmp x r
  end.

(** [x || y] on values that are an object or undefined. *)
Definition orElse {A} (x y : option A) : option A :=
  match x with Some _ => x | None => y end.

Section SceneModel.
Context `{E : External}.

(** Outcome of one of the two [while (true)] loops of [commit]: the time
    check made the function return [false], or the queue side ran empty
    ([break]) with the counter [i] and the number of clock readings so far. *)
Inductive LoopResult :=
| TimedOut (w : World) (s : Scene)
| Drained (i : Z) (reads : nat) (w : World) (s : Scene).

(** *** calculateBoundingSphere (lines 23-45) *)
Definition skipped (w : World) (onlyVisible : bool) (r : GraphicsRenderable) : bool :=
  (onlyVisible && negb (visible (state w r)))
  || negb (truthy (radius (v_boundingSphere (values w r)))).

Definition calculateBoundingSphere (w : World) (rs : list GraphicsRenderable)
  (onlyVisible : bool) : Sphere3D :=
  let h1 := fold_left (fun h r =>
              if skipped w onlyVisible r then h
              else includeSphere h (v_boundingSphere (values w r))) rs bh_reset in
  let h2 := finishedIncludeStep h1 in
  let h3 := fold_left (fun h r =>
              if skipped w onlyVisible r then h
              else radiusSphere h (v_boundingSphere (values w r))) rs h2 in
  getSphere h3.

(** *** renderableSort (lines 47-62)

    [.id] of [undefined] throws, which is [None].  Line 49 reads the
    fallback program of [b] from [a], as the source does. *)
Definition renderableSort (w : World) (a b : GraphicsRenderable) : option Z :=
  pA ← orElse (getProgram w a colorBlended) (getProgram w a colorWboit);
  pB ← orElse (getProgram w b colorBlended) (getProgram w a colorWboit);
  let drawProgramIdA := p_id pA in
  let drawProgramIdB := p_id pB in
  let materialIdA := r_materialId a in
  let materialIdB := r_materialId b in
  if negb (drawProgramIdA =? drawProgramIdB) then Some (drawProgramIdA - drawProgramIdB)
  else if negb (materialIdA =? materialIdB) then Some (materialIdA - materialIdB)
  else Some (r_id a - r_id b).

(** *** add and remove of the registry (lines 110-140) *)
Definition add (o : GraphicsRenderObject) (w : World) (s : Scene)
  : GraphicsRenderable * World * Scene :=
  match renderableMap s !! o with
  | None =>
      let '(renderable, w') := createRenderable w o in
      let volume := String.eqb (o_type o) "direct-volume" in
      (renderable, w',
       {| renderableMap := <[o := renderable]> (renderableMap s);
          renderables := renderables s ++ [renderable];
          boundingSphere := boundingSphere s;
          boundingSphereVisible := boundingSphereVisible s;
          primitives := if volume then primitives s else primitives s ++ [renderable];
          volumes := if volume then volumes s ++ [renderable] else volumes s;
          boundingSphereDirty := true;
          boundingSphereVisibleDirty := true;
          markerAverage := markerAverage s;
          opacityAverage := opacityAverage s;
          commitQueue := commitQueue s;
          visibleHash := visibleHash s |})
  | Some existing => (existing, console_warn w o, s)
  end.

Definition remove (o : GraphicsRenderObject) (w : World) (s : Scene) : World * Scene :=
  match renderableMap s !! o with
  | Some renderable =>
      (dispose w renderable,
       {| renderableMap := delete o (renderableMap s);
          renderables := arraySetRemove (renderables s) renderable;
          boundingSphere := boundingSphere s;
          boundingSphereVisible := boundingSphereVisible s;
          primitives := arraySetRemove (primitives s) renderable;
          volumes := arraySetRemove (volumes s) renderable;
          boundingSphereDirty := true;
          boundingSphereVisibleDirty := true;
          markerAverage := markerAverage s;
          opacityAverage := opacityAverage s;
          commitQueue := commitQueue s;
          visibleHash := visibleHash s |})
  | None => (w, s)
  end.

(** *** computeVisibleHash and syncVisibility (lines 169-190) *)
Definition computeVisibleHash (w : World) (s : Scene) : Z :=
  let hash := fold_left (fun hash r =>
                if negb (visible (state w r)) then hash
                else toInt32 (31 * hash + r_id r)) (renderables s) 23 in
  let hash := hash1 hash in
  if hash =? -1 then 0 else hash.

(** *** calculateMarkerAverage and calculateOpacityAverage (lines 192-219)

    The loop state is the pair of [count] and the running sum. *)
Definition calculateMarkerAverage (w : World) (s : Scene) : float :=
  if (Z.of_nat (length (primitives s)) =? 0) then 0%float else
  let '(count, markerAverage) :=
    fold_left (fun '(count, markerAverage) p =>
      if negb (visible (state w p)) then (count, markerAverage)
      else (count + 1, PrimFloat.add markerAverage (v_markerAverage (values w p))))
      (primitives s) (0, 0%float) in
  if 0 <? count then PrimFloat.div markerAverage (toFloat count) else 0%float.

Definition calculateOpacityAverage (w : World) (s : Scene) : float :=
  if (Z.of_nat (length (primitives s)) =? 0) then 0%float else
  let '(count, opacityAverage) :=
    fold_left (fun '(count, opacityAverage) p =>
      if negb (visible (state w p)) then (count, opacityAverage)
      else
        let alpha := clamp (PrimFloat.mul (v_alpha (values w p)) (alphaFactor (state w p)))
                           0%float 1%float in
        let xray := match v_dXrayShaded (values w p) with
                    | Some true => 0.5%float
                    | _ => 1%float
                    end in
        (count + 1,
         PrimFloat.add opacityAverage
           (PrimFloat.mul
              (PrimFloat.mul (PrimFloat.sub 1%float (v_transparencyAverage (values w p))) alpha)
              xray)))
      (primitives s) (0, 0%float) in
  if 0 <? count then PrimFloat.div opacityAverage (toFloat count) else 0%float.

Definition syncVisibility (w : World) (s : Scene) : bool * Scene :=
  let newVisibleHash := computeVisibleHash w s in
  if negb (newVisibleHash =? visibleHash s) then
    let s1 := setDirty (boundingSphereDirty s) true s in
    (true, setAverages (markerAverage s1) (calculateOpacityAverage w s1) s1)
  else (false, s).

(** *** commit (lines 142-165)

    [clock k] is what the [k]-th call of [now()] within this invocation
    returns; reading 0 is [start].  Both loops have the same shape: take
    the next pending object off its list ([tryGetRemove], [tryGetAdd]),
    stop when there is none, apply the registry operation, count, and at
    every multiple of [commitBulkSize] read the clock (only then: [&&]
    does not evaluate [now()] otherwise).  The recursion runs down the
    pending list [queued] the [tryGet] pops from; [rest_of] writes what is
    left back into the queue ([setRemoveList], [setAddList]). *)
Definition timeExceeded (clock : nat -> float) (reads : nat) (start maxTimeMs : float)
  : bool :=
  PrimFloat.ltb maxTimeMs (PrimFloat.sub (clock reads) start).

Fixpoint commitLoop
  (rest_of : list GraphicsRenderObject -> CommitQueue -> CommitQueue)
  (op : GraphicsRenderObject -> World -> Scene -> World * Scene)
  (clock : nat -> float) (start maxTimeMs : float)
  (queued : list GraphicsRenderObject) (i : Z) (reads : nat) (w : World) (s : Scene)
  : LoopResult :=
  match queued with
  | [] => Drained i reads w s
  | o :: queued' =>
      let '(w1, s1) := op o w (setQueue (rest_of queued' (commitQueue s)) s) in
      let i1 := i + 1 in
      if (i1 mod commitBulkSize =? 0) then
        if timeExceeded clock reads start maxTimeMs then TimedOut w1 s1
        else commitLoop rest_of op clock start maxTimeMs queued' i1 (S reads) w1 s1
      else commitLoop rest_of op clock start maxTimeMs queued' i1 reads w1 s1
  end.

(** [add(o)] as a statement: the returned renderable is dropped. *)
Definition add_ (o : GraphicsRenderObject) (w : World) (s : Scene) : World * Scene :=
  let '(_, w', s') := add o w s in (w', s').

(** What [commit] does once both loops ran empty (lines 162-164). *)
Definition finishCommit (w : World) (s : Scene) : option (bool * World * Scene) :=
  sorted ← arraySort (renderableSort w) (renderables s);
  let s1 := setRenderables sorted s in
  Some (true, w, setAverages (markerAverage s1) (calculateOpacityAverage w s1) s1).

(** [None] is the exception of the comparator leaving [commit]. *)
Definition commit (clock : nat -> float) (maxTimeMs : float) (w : World) (s : Scene)
  : option (bool * World * Scene) :=
  let start := clock 0%nat in
  match commitLoop setRemoveList remove clock start maxTimeMs
          (removeList (commitQueue s)) 0 1%nat w s with
  | TimedOut w1 s1 => Some (false, w1, s1)
  | Drained i reads w1 s1 =>
      match commitLoop setAddList add_ clock start maxTimeMs
              (addList (commitQueue s1)) i reads w1 s1 with
      | TimedOut w2 s2 => Some (false, w2, s2)
      | Drained _ _ w2 s2 => finishCommit w2 s2
      end
  end.

(** *** The object returned by [Scene.create] (lines 221-294) *)

(** [update(objects, keepBoundingSphere)].  [Object3D.update(object3d)]
    only refreshes the view matrix of the scene, which nothing below reads;
    it is left out. *)
Definition update (objects : option (list GraphicsRenderObject))
  (keepBoundingSphere : bool) (w : World) (s : Scene) : World * Scene :=
  let w1 :=
    match objects with
    | Some objs =>
        fold_left (fun w o => match renderableMap s !! o with
                              | Some r => renderable_update w r
                              | None => w
                              end) objs w
    | None => fold_left renderable_update (renderables s) w
    end in
  let s1 := if negb keepBoundingSphere then setDirty true true s
            else snd (syncVisibility w1 s) in
  let s2 := setAverages (calculateMarkerAverage w1 s1) (opacityAverage s1) s1 in
  (w1, setAverages (markerAverage s2) (calculateOpacityAverage w1 s2) s2).

(** The public [add] and [remove] only enqueue. *)
Definition scene_add (o : GraphicsRenderObject) (s : Scene) : Scene :=
  setQueue (queue_add o (commitQueue s)) s.

Definition scene_remove (o : GraphicsRenderObject) (s : Scene) : Scene :=
  setQueue (queue_remove o (commitQueue s)) s.

(** The public [commit]: [maxTime] defaults to [Number.MAX_VALUE]. *)
Definition scene_commit (clock : nat -> float) (maxTime : option float)
  (w : World) (s : Scene) : option (bool * World * Scene) :=
  commit clock (default Number_MAX_VALUE maxTime) w s.

Definition needsCommit (s : Scene) : bool := negb (isEmpty (commitQueue s)).

Definition has (o : GraphicsRenderObject) (s : Scene) : bool :=
  bool_decide (is_Some (renderableMap s !! o)).

Definition clear (w : World) (s : Scene) : World * Scene :=
  (fold_left dispose (renderables s) w,
   {| renderableMap := ∅;
      renderables := [];
      boundingSphere := boundingSphere s;
      boundingSphereVisible := boundingSphereVisible s;
      primitives := [];
      volumes := [];
      boundingSphereDirty := true;
      boundingSphereVisibleDirty := true;
      markerAverage := markerAverage s;
      opacityAverage := opacityAverage s;
      commitQueue := commitQueue s;
      visibleHash := visibleHash s |}).

(** The getters.  The two sphere getters write the scene. *)
Definition get_count (s : Scene) : Z := Z.of_nat (length (renderables s)).

Definition get_boundingSphere (w : World) (s : Scene) : Sphere3D * Scene :=
  if boundingSphereDirty s then
    let sphere := calculateBoundingSphere w (renderables s) false in
    (sphere,
     {| renderableMap := renderableMap s; renderables := renderables s;
        boundingSphere := sphere;
        boundingSphereVisible := boundingSphereVisible s;
        primitives := primitives s; volumes := volumes s;
        boundingSphereDirty := false;
        boundingSphereVisibleDirty := boundingSphereVisibleDirty s;
        markerAverage := markerAverage s; opacityAverage := opacityAverage s;
        commitQueue := commitQueue s; visibleHash := visibleHash s |})
  else (boundingSphere s, s).

Definition get_boundingSphereVisible (w : World) (s : Scene) : Sphere3D * Scene :=
  if boundingSphereVisibleDirty s then
    let sphere := calculateBoundingSphere w (renderables s) true in
    (sphere,
     {| renderableMap := renderableMap s; renderables := renderables s;
        boundingSphere := boundingSphere s;
        boundingSphereVisible := sphere;
        primitives := primitives s; volumes := volumes s;
        boundingSphereDirty := boundingSphereDirty s;
        boundingSphereVisibleDirty := false;
        markerAverage := markerAverage s; opacityAverage := opacityAverage s;
        commitQueue := commitQueue s;
        visibleHash := computeVisibleHash w s |})
  else (boundingSphereVisible s, s).

Definition get_markerAverage (s : Scene) : float := markerAverage s.

Definition get_opacityAverage (s : Scene) : float := opacityAverage s.

End SceneModel.

(** What the registry leaves alone: the cached averages, spheres and
    fingerprint, and the queue. *)
Definition sameCaches (s s' : Scene) : Prop :=
  markerAverage s' = markerAverage s /\ opacityAverage s' = opacityAverage s /\
  visibleHash s' = visibleHash s /\ boundingSphere s' = boundingSphere s /\
  boundingSphereVisible s' = boundingSphereVisible s /\ commitQueue s' = commitQueue s.

(** ** Driving the scene *)

Section Driving.
Context `{E : External}.

(** The registry operations of a list of objects, in order. *)
Definition runOps (op : GraphicsRenderObject -> World -> Scene -> World * Scene)
  (os : list GraphicsRenderObject) (ws : World * Scene) : World * Scene :=
  fold_left (fun ws o => op o ws.1 ws.2) os ws.

(** The state one loop of [commit] leaves after [k] of the objects
    [queued] on its side: their operations done, the others still queued. *)
Definition after (rest_of : list GraphicsRenderObject -> CommitQueue -> CommitQueue)
  (op : GraphicsRenderObject -> World -> Scene -> World * Scene)
  (k : nat) (queued : list GraphicsRenderObject) (w : World) (s : Scene) : World * Scene :=
  ((runOps op (take k queued) (w, s)).1,
   setQueue (rest_of (drop k queued) (commitQueue s)) (runOps op (take k queued) (w, s)).2).

(** All queued removals, then all queued additions, and an empty queue:
    the state in which an uninterrupted [commit] reaches line 162. *)
Definition drainAll (w : World) (s : Scene) : World * Scene :=
  let ws := runOps add_ (addList (commitQueue s))
              (runOps remove (removeList (commitQueue s)) (w, s)) in
  (ws.1, setQueue emptyQueue ws.2).

(** The state after the first [nr] queued removals and the first [na]
    queued additions, with the rest still queued. *)
Definition partialDrain (nr na : nat) (w : World) (s : Scene) : World * Scene :=
  let q := commitQueue s in
  let ws := runOps add_ (take na (addList q)) (runOps remove (take nr (removeList q)) (w, s)) in
  (ws.1, setQueue {| removeList := drop nr (removeList q); addList := drop na (addList q) |} ws.2).

(** The driving loop: call [commit] again until it reports completion, at
    most [n] more times.  Call [k] reads the clock [clocks k] and has the
    budget [budgets k]. *)
Fixpoint commitRepeat (n : nat) (clocks : nat -> nat -> float) (budgets : nat -> float)
  (w : World) (s : Scene) {struct n} : option (bool * World * Scene) :=
  match commit (clocks 0%nat) (budgets 0%nat) w s with
  | Some (false, w', s') =>
      match n with
      | O => Some (false, w', s')
      | S n' => commitRepeat n' (fun k => clocks (S k)) (fun k => budgets (S k)) w' s'
      end
  | r => r
  end.

(** Reading the outcome of [commit]: what it returned, and the world and
    the scene it left ([w0] and a new scene stand in when it threw). *)
Definition returned (r : option (bool * World * Scene)) : option bool :=
  match r with Some (b, _, _) => Some b | None => None end.

Definition worldAfter (w0 : World) (r : option (bool * World * Scene)) : World :=
  match r with Some (_, w, _) => w | None => w0 end.

Definition sceneAfter (r : option (bool * World * Scene)) : Scene :=
  match r with Some (_, _, s) => s | None => create end.

(** The draw program of one renderable, as line 48 computes it. *)
Definition drawProgramId (w : World) (r : GraphicsRenderable) : option Z :=
  p_id <$> orElse (getProgram w r colorBlended) (getProgram w r colorWboit).

(** The number [renderableSort] returns when both have a colorBlended
    program. *)
Definition blendedOrder (w : World) (a b : GraphicsRenderable) : Z :=
  let pa := default 0 (p_id <$> getProgram w a colorBlended) in
  let pb := default 0 (p_id <$> getProgram w b colorBlended) in
  if negb (pa =? pb) then pa - pb
  else if negb (r_materialId a =? r_materialId b) then r_materialId a - r_materialId b
  else r_id a - r_id b.

(** The order of the live list after a complete [commit]: program id,
    then material id, then drawable id. *)
Definition drawOrder (w : World) (a b : GraphicsRenderable) : Prop :=
  exists pa pb, drawProgramId w a = Some pa /\ drawProgramId w b = Some pb /\
    (pa < pb \/
     pa = pb /\ (r_materialId a < r_materialId b \/
                 r_materialId a = r_materialId b /\ r_id a <= r_id b)).

(** The summand of the opacity average for one primitive (lines 213-215). *)
Definition opacityTerm (w : World) (p : GraphicsRenderable) : float :=
  PrimFloat.mul
    (PrimFloat.mul (PrimFloat.sub 1%float (v_transparencyAverage (values w p)))
       (clamp (PrimFloat.mul (v_alpha (values w p)) (alphaFactor (state w p))) 0%float 1%float))
    (match v_dXrayShaded (values w p) with Some true => 0.5%float | _ => 1%float end).

(** The mean of a list of numbers, summed from the left; 0 for no number. *)
Definition mean (l : list float) : float :=
  match l with
  | [] => 0%float
  | _ => PrimFloat.div (fold_left PrimFloat.add l 0%float) (toFloat (Z.of_nat (length l)))
  end.

(** The sphere the boundary helper returns when nothing was included. *)
Definition emptyBoundary : Sphere3D := getSphere (finishedIncludeStep bh_reset).

Definition visiblePrimitives (w : World) (s : Scene) : list GraphicsRenderable :=
  List.filter (fun p => visible (state w p)) (primitives s).

End Driving.

(** ** A small outside world to run the scene in

    Renderables get consecutive ids; the published state, values and
    programs of a renderable are looked up by that id in tables. *)
Module Sim.

Record SimWorld := {
  nextId : Z;
  stateOf : Z -> RenderableState;
  valuesOf : Z -> RenderableValues;
  programOf : Z -> GraphicsRenderVariant -> option Program;
  disposed : list GraphicsRenderable;
  warnings : list Z
}.

Definition sim_create (w : SimWorld) (o : GraphicsRenderObject) : GraphicsRenderable * SimWorld :=
  ({| r_id := nextId w; r_materialId := 0 |},
   {| nextId := nextId w + 1; stateOf := stateOf w; valuesOf := valuesOf w;
      programOf := programOf w; disposed := disposed w; warnings := warnings w |}).

Definition sim_dispose (w : SimWorld) (r : GraphicsRenderable) : SimWorld :=
  {| nextId := nextId w; stateOf := stateOf w; valuesOf := valuesOf w;
     programOf := programOf w; disposed := disposed w ++ [r]; warnings := warnings w |}.

Definition sim_warn (w : SimWorld) (o : GraphicsRenderObject) : SimWorld :=
  {| nextId := nextId w; stateOf := stateOf w; valuesOf := valuesOf w;
     programOf := programOf w; disposed := disposed w; warnings := warnings w ++ [o_id o] |}.

(** Removal of the first occurrence, the order of the others kept. *)
Fixpoint sim_arraySetRemove (xs : list GraphicsRenderable) (x : GraphicsRenderable)
  : list GraphicsRenderable :=
  match xs with
  | [] => []
  | y :: ys => if decide (y = x) then ys else y :: sim_arraySetRemove ys x
  end.

Definition fmin (a b : float) : float := if PrimFloat.ltb a b then a else b.
Definition fmax (a b : float) : float := if PrimFloat.ltb a b then b else a.

(** [Math.max(min, Math.min(max, value))] *)
Definition sim_clamp (value lo hi : float) : float := fmax lo (fmin hi value).

(** A mixing step on 32 bit integers. *)
Definition sim_hash1 (i : Z) : Z :=
  let a := Z.lxor i (Z.shiftr i 4) in
  toInt32 (Z.lxor a (Z.shiftr a 11)).

(** A centroid helper: the centre is the mean of the included centres, the
    radius the largest distance plus radius seen from there. *)
Record Centroid := {
  c_sum : float * float * float;
  c_count : Z;
  c_center : float * float * float;
  c_radius : float
}.

Definition sim_reset : Centroid :=
  {| c_sum := (0%float, 0%float, 0%float); c_count := 0;
     c_center := (0%float, 0%float, 0%float); c_radius := 0%float |}.

Definition sim_include (h : Centroid) (s : Sphere3D) : Centroid :=
  let '(x, y, z) := c_sum h in
  let '(a, b, c) := center s in
  {| c_sum := (PrimFloat.add x a, PrimFloat.add y b, PrimFloat.add z c);
     c_count := c_count h + 1; c_center := c_center h; c_radius := c_radius h |}.

Definition sim_finished (h : Centroid) : Centroid :=
  let '(x, y, z) := c_sum h in
  let n := toFloat (c_count h) in
  {| c_sum := c_sum h; c_count := c_count h;
     c_center := if 0 <? c_count h
                 then (PrimFloat.div x n, PrimFloat.div y n, PrimFloat.div z n)
                 else c_center h;
     c_radius := c_radius h |}.

Definition sim_radius (h : Centroid) (s : Sphere3D) : Centroid :=
  let '(x, y, z) := c_center h in
  let '(a, b, c) := center s in
  let dx := PrimFloat.sub a x in
  let dy := PrimFloat.sub b y in
  let dz := PrimFloat.sub c z in
  let d := PrimFloat.sqrt (PrimFloat.add (PrimFloat.add (PrimFloat.mul dx dx) (PrimFloat.mul dy dy))
                             (PrimFloat.mul dz dz)) in
  {| c_sum := c_sum h; c_count := c_count h; c_center := c_center h;
     c_radius := fmax (c_radius h) (PrimFloat.add d (radius s)) |}.

Definition sim_sphere (h : Centroid) : Sphere3D :=
  {| center := c_center h; radius := c_radius h |}.

#[global] Instance sim : External := {|
  World := SimWorld;
  createRenderable := sim_create;
  dispose := sim_dispose;
  renderable_update := fun w _ => w;
  console_warn := sim_warn;
  getProgram := fun w r v => programOf w (r_id r) v;
  state := fun w r => stateOf w (r_id r);
  values := fun w r => valuesOf w (r_id r);
  arraySetRemove := sim_arraySetRemove;
  hash1 := sim_hash1;
  clamp := sim_clamp;
  BoundaryHelper := Centroid;
  bh_reset := sim_reset;
  includeSphere := sim_include;
  finishedIncludeStep := sim_finished;
  radiusSphere := sim_radius;
  getSphere := sim_sphere
|}.

(** Sample descriptors. *)
Definition mesh (i : Z) : GraphicsRenderObject := {| o_id := i; o_type := "mesh" |}.
Definition volume (i : Z) : GraphicsRenderObject := {| o_id := i; o_type := "direct-volume" |}.

Definition unitSphere : Sphere3D :=
  {| center := (0%float, 0%float, 0%float); radius := 1%float |}.

(** Published values of an opaque drawable with marker coverage [m]. *)
Definition opaque (m : float) : RenderableValues :=
  {| v_alpha := 1%float; v_transparencyAverage := 0%float; v_dXrayShaded := Some false;
     v_markerAverage := m; v_boundingSphere := unitSphere |}.

Definition shown : RenderableState := {| visible := true; alphaFactor := 1%float |}.
Definition hidden : RenderableState := {| visible := false; alphaFactor := 1%float |}.

(** A world whose drawables are all visible, opaque, half marked, and have
    both programs, the program id being the renderable id. *)
Definition world0 : World :=
  {| nextId := 1; stateOf := fun _ => shown; valuesOf := fun _ => opaque 0.5%float;
     programOf := fun i _ => Some {| p_id := i |}; disposed := []; warnings := [] |}.

(** The same world for a scene created without the colorBlended variant:
    only the colorWboit program exists, with id [3 - i] for renderable [i]. *)
Definition wboitWorld : World :=
  {| nextId := 1; stateOf := fun _ => shown; valuesOf := fun _ => opaque 0.5%float;
     programOf := fun i v => match v with
                             | colorBlended => None
                             | colorWboit => Some {| p_id := 3 - i |}
                             end;
     disposed := []; warnings := [] |}.

(** A world in which renderable 1 is visible and renderable 2 is not. *)
Definition oneHiddenWorld : World :=
  {| nextId := 1; stateOf := fun i => if i =? 2 then hidden else shown;
     valuesOf := fun i => if i =? 2 then
                   {| v_alpha := 0.25%float; v_transparencyAverage := 0.5%float;
                      v_dXrayShaded := Some true; v_markerAverage := 1%float;
                      v_boundingSphere := unitSphere |}
                 else opaque 0%float;
     programOf := fun i _ => Some {| p_id := i |}; disposed := []; warnings := [] |}.

(** A world in which renderable 1 is opaque and all others are half
    transparent. *)
Definition mixedWorld : World :=
  {| nextId := 1; stateOf := fun _ => shown;
     valuesOf := fun i => if i =? 1 then opaque 0.5%float else
                   {| v_alpha := 0.5%float; v_transparencyAverage := 0%float;
                      v_dXrayShaded := None; v_markerAverage := 0%float;
                      v_boundingSphere := unitSphere |};
     programOf := fun i _ => Some {| p_id := i |}; disposed := []; warnings := [] |}.

(** Somebody outside hides renderable [i]. *)
Definition hide (i : Z) (w : World) : World :=
  {| nextId := nextId w;
     stateOf := fun j => if j =? i then hidden else stateOf w j;
     valuesOf := valuesOf w; programOf := programOf w;
     disposed := disposed w; warnings := warnings w |}.

(** A clock that stands still, and one that ticks a millisecond a reading. *)
Definition frozenClock : nat -> float := fun _ => 0%float.
Definition tickingClock : nat -> float := fun k => toFloat (Z.of_nat k).

(** [n] descriptors [mesh n], ..., [mesh 1]. *)
Fixpoint meshes (n : nat) : list GraphicsRenderObject :=
  match n with
  | O => []
  | S n' => mesh (Z.of_nat n) :: meshes n'
  end.

(** The scene [s] after [scene_remove] for each of [os], then [scene_add]
    for each of [ns]; [queued] starts from a new scene. *)
Definition enqueue (os ns : list GraphicsRenderObject) (s : Scene) : Scene :=
  fold_left (fun s o => scene_add o s) ns (fold_left (fun s o => scene_remove o s) os s).

Definition queued (os ns : list GraphicsRenderObject) : Scene := enqueue os ns create.

(** One mesh, and two meshes, added to a new scene and committed in [w]:
    the renderables are [r1], and [r1] and [r2]. *)
Definition oneMesh (w : World) : option (bool * World * Scene) :=
  commit (E := sim) frozenClock Number_MAX_VALUE w (queued [] [mesh 1]).

Definition twoMeshes (w : World) : option (bool * World * Scene) :=
  commit (E := sim) frozenClock Number_MAX_VALUE w (queued [] [mesh 1; mesh 2]).

Definition r1 : GraphicsRenderable := {| r_id := 1; r_materialId := 0 |}.
Definition r2 : GraphicsRenderable := {| r_id := 2; r_materialId := 0 |}.

(** A world in which no drawable has a program of any variant. *)
Definition bareWorld : World :=
  {| nextId := 1; stateOf := fun _ => shown; valuesOf := fun _ => opaque 0.5%float;
     programOf := fun _ _ => None; disposed := []; warnings := [] |}.

End Sim.

(** ** Notions used to state further properties *)

Section Notions.
Context `{E : External}.

(** The two passes of the boundary helper over a list of spheres. *)
Definition boundaryOf (spheres : list Sphere3D) : Sphere3D :=
  getSphere (fold_left radiusSphere spheres
               (finishedIncludeStep (fold_left includeSphere spheres bh_reset))).

(** The spheres [calculateBoundingSphere] lets through, in live order. *)
Definition qualifyingSpheres (w : World) (rs : list GraphicsRenderable)
  (onlyVisible : bool) : list Sphere3D :=
  map (fun r => v_boundingSphere (values w r))
      (List.filter (fun r => negb (skipped w onlyVisible r)) rs).

(** The ids of the visible drawables, in live order, and the fingerprint
    of such a list. *)
Definition visibleIds (w : World) (s : Scene) : list Z :=
  map r_id (List.filter (fun r => visible (state w r)) (renderables s)).

Definition fingerprint (ids : list Z) : Z :=
  let hash := hash1 (fold_left (fun hash i => toInt32 (31 * hash + i)) ids 23) in
  if hash =? -1 then 0 else hash.

(** What the scene needs of [arraySetRemove]: one occurrence of the item
    goes if there is one (wherever the others end up), and nothing happens
    otherwise. *)
Definition removesOneOccurrence : Prop :=
  forall (xs : list GraphicsRenderable) (x : GraphicsRenderable),
    (x ∈ xs -> xs ≡ₚ x :: arraySetRemove xs x) /\ (x ∉ xs -> arraySetRemove xs x = xs).

(** Every live drawable is in one partition, once. *)
Definition partitioned (s : Scene) : Prop :=
  NoDup (renderables s) /\ renderables s ≡ₚ primitives s ++ volumes s.

(** The registered objects. *)
Definition registered (s : Scene) : gset GraphicsRenderObject := dom (renderableMap s).

(** The renderables [update] republishes for a given list of objects. *)
Definition registeredOf (s : Scene) (objs : list GraphicsRenderObject)
  : list GraphicsRenderable :=
  omap (fun o => renderableMap s !! o) objs.

(** No reading of the clock in this invocation is past the budget. *)
Definition withinBudget (clock : nat -> float) (maxTimeMs : float) : Prop :=
  forall k, timeExceeded clock k (clock 0%nat) maxTimeMs = false.

(** A registry operation leaves the scene alone or marks both spheres
    dirty. *)
Definition untouchedOrDirty (s s' : Scene) : Prop :=
  s' = s \/ boundingSphereDirty s' = true /\ boundingSphereVisibleDirty s' = true.

End Notions.

(** ** The assembly symmetry cluster colour theme (src/unnamed/part_002) *)
Module ClusterTheme.

Definition Color := Z.

Definition DefaultColor : Color := 0xCCCCCC.

(** A cluster member as the theme reads it: [pdbx_struct_oper_list_ids]
    may be missing. *)
Record Member := {
  asym_id : string;
  pdbx_struct_oper_list_ids : option (list string)
}.

Record Cluster := { members : list Member }.

(** [Unit.Kind] and [getAsymId] (lines 20-28): the property that holds the
    asym id of a location depends on the kind of its unit. *)
Inductive UnitKind := Atomic | Spheres | Gaussians.

Inductive Location :=
| ElementLocation (kind : UnitKind) (label_asym_id coarse_asym_id : string)
                  (operList : list string)
| OtherLocation.

Definition getAsymId (kind : UnitKind) (label_asym_id coarse_asym_id : string) : string :=
  match kind with
  | Atomic => label_asym_id
  | Spheres | Gaussians => coarse_asym_id
  end.

(** [clusterMemberKey] (lines 30-32) *)
Definition clusterMemberKey (asymId : string) (operList : list string) : string :=
  (asymId ++ "-" ++ String.concat "|" operList)%string.

(** The body of the inner loop (lines 60-66). *)
Definition setMember (i : nat) (clusterByMember : gmap string nat) (member : Member)
  : gmap string nat :=
  let asymId := asym_id member in
  let operList := default [] (pdbx_struct_oper_list_ids member) in
  let m1 := <[clusterMemberKey asymId operList := i]> clusterByMember in
  if (length operList =? 0)%nat
  then <[clusterMemberKey asymId (operList ++ ["1"%string]) := i]> m1
  else m1.

(** The two loops (lines 56-68). *)
Definition clusterByMember (clusters : list Cluster) : gmap string nat :=
  fold_left (fun m ic => fold_left (setMember ic.1) (members ic.2) m)
            (imap (fun i c => (i, c)) clusters) ∅.

(** The [color] function of the theme (lines 46, 55, 72-80).  [getPalette]
    gives the palette for a number of clusters; [hasStructure] says whether
    [ctx.structure] is there. *)
Definition color (getPalette : nat -> nat -> Color) (hasStructure : bool)
  (clusters : option (list Cluster)) (location : Location) : Color :=
  match clusters with
  | Some cs =>
      if negb (length cs =? 0)%nat && hasStructure then
        match location with
        | ElementLocation kind label coarse operList =>
            let asymId := getAsymId kind label coarse in
            match clusterByMember cs !! clusterMemberKey asymId operList with
            | Some cluster => getPalette (length cs) cluster
            | None => DefaultColor
            end
        | OtherLocation => DefaultColor
        end
      else DefaultColor
  | None => DefaultColor
  end.

(** The keys under which a member is entered, and whether a cluster has a
    member entered under a key. *)
Definition keysOf (member : Member) : list string :=
  let operList := default [] (pdbx_struct_oper_list_ids member) in
  clusterMemberKey (asym_id member) operList
  :: match operList with
     | [] => [clusterMemberKey (asym_id member) ["1"%string]]
     | _ => []
     end.

Definition claims (c : Cluster) (key : string) : bool :=
  existsb (fun member => bool_decide (key ∈ keysOf member)) (members c).

(** Three clusters to run the theme on, and a palette that shows the
    number of clusters and the index it is asked for. *)
Definition memberA : Member := {| asym_id := "A"; pdbx_struct_oper_list_ids := None |}.

Definition memberB : Member :=
  {| asym_id := "B"; pdbx_struct_oper_list_ids := Some ["1"; "2"]%string |}.

Definition threeClusters : list Cluster :=
  [ {| members := [memberA] |}; {| members := [memberB; memberA] |};
    {| members := [memberB] |} ].

Definition indexPalette (n i : nat) : Color := Z.of_nat (n * 10 + i).

End ClusterTheme.

(** * Properties *)

(** Two doubles with a false [eqb] are different values. *)
Lemma float_neq (a b : float) : PrimFloat.eqb a b = false -> PrimFloat.is_nan a = false -> a <> b.
Proof.
  intros Hab Hnan ->. unfold PrimFloat.is_nan in Hnan. rewrite Hab in Hnan. discriminate.
Qed.

Lemma setQueue_id (s : Scene) : setQueue (commitQueue s) s = s.
Proof. destruct s; reflexivity. Qed.

Lemma setQueue_setQueue (q q' : CommitQueue) (s : Scene) :
  setQueue q (setQueue q' s) = setQueue q s.
Proof. reflexivity. Qed.

Lemma setRemoveList_id (q : CommitQueue) : setRemoveList (removeList q) q = q.
Proof. destruct q; reflexivity. Qed.

Lemma setAddList_id (q : CommitQueue) : setAddList (addList q) q = q.
Proof. destruct q; reflexivity. Qed.

Section Registry.
Context `{E : External}.

Lemma returned_Some (r : option (bool * World * Scene)) (b : bool) (w0 : World) :
  returned r = Some b -> r = Some (b, worldAfter w0 r, sceneAfter r).
Proof. destruct r as [[[b' w] s]|]; cbn; [by intros [= ->] | done]. Qed.

(** The registry never looks at the queue and never writes it. *)
Lemma remove_setQueue o w s q :
  remove o w (setQueue q s) = ((remove o w s).1, setQueue q (remove o w s).2).
Proof. unfold remove; simpl. destruct (renderableMap s !! o); reflexivity. Qed.

Lemma add__setQueue o w s q :
  add_ o w (setQueue q s) = ((add_ o w s).1, setQueue q (add_ o w s).2).
Proof.
  unfold add_, add; simpl. destruct (renderableMap s !! o); [reflexivity|].
  destruct (createRenderable w o); reflexivity.
Qed.

Lemma sameCaches_refl s : sameCaches s s.
Proof. repeat split. Qed.

Lemma sameCaches_trans s1 s2 s3 : sameCaches s1 s2 -> sameCaches s2 s3 -> sameCaches s1 s3.
Proof. unfold sameCaches. intuition congruence. Qed.

Lemma remove_sameCaches o w s : sameCaches s (remove o w s).2.
Proof. unfold remove. destruct (renderableMap s !! o); repeat split. Qed.

Lemma add__sameCaches o w s : sameCaches s (add_ o w s).2.
Proof.
  unfold add_, add. destruct (renderableMap s !! o); [repeat split|].
  destruct (createRenderable w o); repeat split.
Qed.

(** [add] appends to the live list. *)
Lemma add__renderables o w s :
  exists new, renderables (add_ o w s).2 = renderables s ++ new.
Proof.
  unfold add_, add. destruct (renderableMap s !! o).
  - exists []. simpl. by rewrite app_nil_r.
  - destruct (createRenderable w o) as [r w']. by exists [r].
Qed.

End Registry.

(** ** The two loops of [commit] *)

Section Loop.
Context `{E : External}.
Variable rest_of : list GraphicsRenderObject -> CommitQueue -> CommitQueue.
Variable op : GraphicsRenderObject -> World -> Scene -> World * Scene.
Hypothesis rest_of_twice : forall l l' q, rest_of l (rest_of l' q) = rest_of l q.
Hypothesis op_setQueue : forall o w s q,
  op o w (setQueue q s) = ((op o w s).1, setQueue q (op o w s).2).

Lemma bulk_multiple (n : Z) : 0 < n -> n mod commitBulkSize = 0 -> 100 <= n.
Proof. unfold commitBulkSize. intros Hpos Hmod. Z.to_euclidean_division_equations. lia. Qed.

Lemma runOps_setQueue os w s q :
  runOps op os (w, setQueue q s) = ((runOps op os (w, s)).1, setQueue q (runOps op os (w, s)).2).
Proof.
  revert w s. induction os as [|o os IH]; intros w s; simpl; [reflexivity|].
  rewrite op_setQueue. simpl. rewrite IH. by destruct (op o w s).
Qed.

Lemma runOps_app os os' ws : runOps op (os ++ os') ws = runOps op os' (runOps op os ws).
Proof. apply fold_left_app. Qed.

Lemma after_step k o queued' w s :
  after rest_of op k queued' (op o w s).1 (setQueue (rest_of queued' (commitQueue s)) (op o w s).2)
  = after rest_of op (S k) (o :: queued') w s.
Proof.
  unfold after. cbn [take drop runOps fold_left fst snd].
  fold (runOps op (take k queued')).
  rewrite runOps_setQueue. cbn [fst snd commitQueue setQueue].
  rewrite rest_of_twice. destruct (op o w s) as [wa sa]; reflexivity.
Qed.

Lemma commitLoop_run clock start maxTimeMs queued : forall i reads w s,
  match commitLoop rest_of op clock start maxTimeMs queued i reads w s with
  | TimedOut w' s' =>
      exists k, (0 < k <= length queued)%nat /\ (i + Z.of_nat k) mod commitBulkSize = 0 /\
                (w', s') = after rest_of op k queued w s
  | Drained i' reads' w' s' =>
      i' = i + Z.of_nat (length queued) /\
      (queued = [] /\ (w', s') = (w, s) \/ queued <> [] /\ (w', s') = after rest_of op (length queued) queued w s)
  end.
Proof.
  induction queued as [|o queued' IH]; intros i reads w s.
  - simpl. split; [lia|]. by left.
  - cbn [commitLoop]. rewrite op_setQueue.
    set (w1 := (op o w s).1). set (s1 := setQueue _ (op o w s).2).
    pose proof (fun k => after_step k o queued' w s) as Hstep. fold w1 s1 in Hstep.
    assert (Hres : forall reads',
      match commitLoop rest_of op clock start maxTimeMs queued' (i + 1) reads' w1 s1 with
      | TimedOut w' s' =>
          exists k, (0 < k <= length (o :: queued'))%nat /\ (i + Z.of_nat k) mod commitBulkSize = 0 /\
                    (w', s') = after rest_of op k (o :: queued') w s
      | Drained i' reads' w' s' =>
          i' = i + Z.of_nat (length (o :: queued')) /\
          ((o :: queued') = [] /\ (w', s') = (w, s) \/
           (o :: queued') <> [] /\ (w', s') = after rest_of op (length (o :: queued')) (o :: queued') w s)
      end).
    { intros reads'. specialize (IH (i + 1) reads' w1 s1).
      destruct (commitLoop _ _ _ _ _ queued' _ _ _ _) as [w' s'|i' r' w' s'].
      - destruct IH as (k & Hk & Hmod & Heq). exists (S k). cbn [length].
        split; [lia|]. split; [rewrite <- Hmod; f_equal; lia|]. by rewrite <- Hstep.
      - destruct IH as (Hi & Hcase). cbn [length]. split; [lia|]. right. split; [done|].
        rewrite <- Hstep. destruct Hcase as [[-> Heq]|[_ Heq]]; [|done].
        rewrite Heq. unfold after. cbn. unfold s1. cbn. by rewrite rest_of_twice. }
    destruct (_ =? 0) eqn:Hmod.
    + destruct (timeExceeded _ _ _ _); [|apply Hres].
      exists 1%nat. cbn [length]. split; [lia|]. split; [apply Z.eqb_eq in Hmod; exact Hmod|].
      unfold after. cbn. reflexivity.
    + apply Hres.
Qed.


(** When the clock is past the budget at its first reading in the loops,
    the loop stops at operation number 100 of the invocation. *)
Lemma commitLoop_first_check clock start maxTimeMs :
  timeExceeded clock 1 start maxTimeMs = true ->
  forall queued i w s, 0 <= i < 100 ->
  (100 - i <= Z.of_nat (length queued) ->
     commitLoop rest_of op clock start maxTimeMs queued i 1 w s
     = TimedOut (after rest_of op (Z.to_nat (100 - i)) queued w s).1
                (after rest_of op (Z.to_nat (100 - i)) queued w s).2) /\
  (Z.of_nat (length queued) < 100 - i ->
     exists w' s', commitLoop rest_of op clock start maxTimeMs queued i 1 w s
                   = Drained (i + Z.of_nat (length queued)) 1 w' s').
Proof.
  intros Hclock. induction queued as [|o queued' IH]; intros i w s Hi.
  - split; [cbn; lia|]. intros _. exists w, s. cbn. f_equal. lia.
  - cbn [commitLoop length]. rewrite op_setQueue.
    destruct (_ =? 0) eqn:Hmod.
    + apply Z.eqb_eq in Hmod. apply bulk_multiple in Hmod; [|lia].
      assert (i = 99) as -> by lia. rewrite Hclock. split; [|lia]. intros _.
      change (Z.to_nat (100 - 99)) with 1%nat. unfold after. reflexivity.
    + apply Z.eqb_neq in Hmod.
      assert (i + 1 < 100).
      { destruct (decide (i + 1 = 100)) as [Heq|]; [|lia]. rewrite Heq in Hmod. done. }
      destruct (IH (i + 1) (op o w s).1
                  (setQueue (rest_of queued' (commitQueue s)) (op o w s).2)) as [IH1 IH2]; [lia|].
      split.
      * intros Hlen. rewrite IH1 by lia. rewrite after_step.
        replace (S (Z.to_nat (100 - (i + 1)))) with (Z.to_nat (100 - i)) by lia. done.
      * intros Hlen. destruct IH2 as (w' & s' & Heq); [lia|]. exists w', s'.
        rewrite Heq. f_equal. lia.
Qed.

Lemma commitLoop_drained clock start maxTimeMs queued i reads w s i' reads' w' s' :
  rest_of queued (commitQueue s) = commitQueue s ->
  commitLoop rest_of op clock start maxTimeMs queued i reads w s = Drained i' reads' w' s' ->
  i' = i + Z.of_nat (length queued) /\ (w', s') = after rest_of op (length queued) queued w s.
Proof.
  intros Hq Hloop. pose proof (commitLoop_run clock start maxTimeMs queued i reads w s) as H.
  rewrite Hloop in H. destruct H as (Hi & [[-> Heq]|[_ Heq]]); split; try done.
  rewrite Heq. unfold after. cbn. rewrite Hq. by rewrite setQueue_id.
Qed.

Lemma commitLoop_timedOut clock start maxTimeMs queued i reads w s w' s' :
  commitLoop rest_of op clock start maxTimeMs queued i reads w s = TimedOut w' s' ->
  exists k, (0 < k <= length queued)%nat /\ (i + Z.of_nat k) mod commitBulkSize = 0 /\
            (w', s') = after rest_of op k queued w s.
Proof.
  intros Hloop. pose proof (commitLoop_run clock start maxTimeMs queued i reads w s) as H.
  by rewrite Hloop in H.
Qed.

End Loop.

Section Commit.
Context `{E : External}.

Lemma after_removes nr w s :
  after setRemoveList remove nr (removeList (commitQueue s)) w s = partialDrain nr 0 w s.
Proof. unfold after, partialDrain. rewrite take_0, drop_0. reflexivity. Qed.

Lemma after_adds nr na w s :
  let ws := partialDrain nr 0 w s in
  after setAddList add_ na (addList (commitQueue s)) ws.1 ws.2 = partialDrain nr na w s.
Proof.
  unfold after, partialDrain. rewrite take_0, drop_0. cbn [runOps fold_left fst snd].
  fold (runOps add_ (take na (addList (commitQueue s)))).
  destruct (runOps remove _ _) as [wa sa]. cbn [fst snd].
  rewrite (runOps_setQueue add_ add__setQueue). reflexivity.
Qed.

Lemma partialDrain_all w s :
  partialDrain (length (removeList (commitQueue s))) (length (addList (commitQueue s))) w s
  = drainAll w s.
Proof.
  unfold partialDrain, drainAll. by rewrite !firstn_all, !drop_all.
Qed.

Lemma finishCommit_cases w s :
  finishCommit w s = None \/ exists s', finishCommit w s = Some (true, w, s').
Proof.
  unfold finishCommit. destruct (arraySort _ _); cbn; [right; eauto | by left].
Qed.

Lemma commit_cases clock maxTimeMs w s :
  let nR := length (removeList (commitQueue s)) in
  let nA := length (addList (commitQueue s)) in
  (exists nr, (100 <= nr <= nR)%nat /\
     commit clock maxTimeMs w s
     = Some (false, (partialDrain nr 0 w s).1, (partialDrain nr 0 w s).2))
  \/ (exists na, (0 < na <= nA)%nat /\ (100 <= nR + na)%nat /\
     commit clock maxTimeMs w s
     = Some (false, (partialDrain nR na w s).1, (partialDrain nR na w s).2))
  \/ commit clock maxTimeMs w s = finishCommit (drainAll w s).1 (drainAll w s).2.
Proof.
  intros nR nA. unfold commit.
  destruct (commitLoop setRemoveList remove _ _ _ _ _ _ _ _) as [w1 s1|i reads w1 s1] eqn:Hrem.
  - left. apply (commitLoop_timedOut setRemoveList remove (fun _ _ _ => eq_refl) remove_setQueue) in Hrem.
    destruct Hrem as (k & Hk & Hmod & Heq). exists k. rewrite after_removes in Heq.
    rewrite <- Heq. split; [|done]. apply bulk_multiple in Hmod; [|lia]. fold nR in Hk. lia.
  - apply (commitLoop_drained setRemoveList remove (fun _ _ _ => eq_refl) remove_setQueue) in Hrem;
      [|apply setRemoveList_id].
    destruct Hrem as (Hi & Heq). rewrite after_removes in Heq. fold nR in Heq, Hi.
    assert (Hq1 : addList (commitQueue s1) = addList (commitQueue s)).
    { change s1 with (w1, s1).2. by rewrite Heq. }
    rewrite Hq1.
    assert (Hw1 : w1 = (partialDrain nR 0 w s).1) by (change w1 with (w1, s1).1; by rewrite Heq).
    assert (Hs1 : s1 = (partialDrain nR 0 w s).2) by (change s1 with (w1, s1).2; by rewrite Heq).
    destruct (commitLoop setAddList add_ _ _ _ _ _ _ _ _) as [w2 s2|i2 reads2 w2 s2] eqn:Hadd.
    + right; left.
      apply (commitLoop_timedOut setAddList add_ (fun _ _ _ => eq_refl) add__setQueue) in Hadd.
      destruct Hadd as (k & Hk & Hmod & Heq2). exists k.
      rewrite Hw1, Hs1, after_adds in Heq2. rewrite <- Heq2. fold nA in Hk.
      split; [done|]. split; [|done]. apply bulk_multiple in Hmod; lia.
    + right; right.
      apply (commitLoop_drained setAddList add_ (fun _ _ _ => eq_refl) add__setQueue) in Hadd.
      * destruct Hadd as (_ & Heq2). rewrite Hw1, Hs1, after_adds in Heq2.
        fold nA in Heq2. unfold nR, nA in Heq2. rewrite partialDrain_all in Heq2.
        by rewrite <- Heq2.
      * rewrite <- Hq1. apply setAddList_id.
Qed.


Lemma drainAll_partialDrain nr na w s :
  (0 < na -> nr = length (removeList (commitQueue s)))%nat ->
  drainAll (partialDrain nr na w s).1 (partialDrain nr na w s).2 = drainAll w s.
Proof.
  intros Hna. unfold drainAll, partialDrain. cbn [fst snd commitQueue setQueue removeList addList].
  set (RL := removeList (commitQueue s)) in *. set (AL := addList (commitQueue s)) in *.
  destruct (runOps add_ (take na AL) _) as [wa sa] eqn:Hfirst.
  cbn [fst snd].
  rewrite (runOps_setQueue remove remove_setQueue).
  destruct (runOps remove (drop nr RL) (wa, sa)) as [wb sb] eqn:Hsecond. cbn [fst snd].
  rewrite (runOps_setQueue add_ add__setQueue). cbn [fst snd]. rewrite setQueue_setQueue.
  enough (runOps add_ (drop na AL) (wb, sb) = runOps add_ AL (runOps remove RL (w, s))) as ->
    by reflexivity.
  rewrite <- Hsecond, <- Hfirst. destruct na as [|na'].
  - rewrite take_0, drop_0. cbn [runOps fold_left]. fold (runOps remove (drop nr RL)).
    unfold runOps at 2 3. rewrite <- fold_left_app, take_drop. reflexivity.
  - rewrite Hna by lia. rewrite drop_all, firstn_all. cbn [runOps fold_left].
    fold (runOps add_ (drop (S na') AL)). unfold runOps at 1 2.
    rewrite <- fold_left_app, take_drop. reflexivity.
Qed.

Lemma isEmpty_pending q : isEmpty q = bool_decide (pending q = 0%nat).
Proof. destruct q as [[|] [|]]; reflexivity. Qed.

Lemma pending_partialDrain nr na w s :
  pending (commitQueue (partialDrain nr na w s).2)
  = (length (removeList (commitQueue s)) - nr + (length (addList (commitQueue s)) - na))%nat.
Proof. unfold partialDrain, pending. cbn. by rewrite !length_drop. Qed.

Lemma commitRepeat_drains n : forall clocks budgets w s,
  (pending (commitQueue s) < 100 * S n)%nat ->
  commitRepeat n clocks budgets w s = finishCommit (drainAll w s).1 (drainAll w s).2.
Proof.
  induction n as [|n IH]; intros clocks budgets w s Hp;
    destruct (commit_cases (clocks 0%nat) (budgets 0%nat) w s)
      as [(nr & Hnr & Hc)|[(na & Hna & Hsum & Hc)|Hc]];
    cbn [commitRepeat]; rewrite Hc; unfold pending in Hp.
  - lia.
  - lia.
  - destruct (finishCommit_cases (drainAll w s).1 (drainAll w s).2) as [->|[s' ->]]; done.
  - rewrite IH; [by rewrite drainAll_partialDrain by lia|]. rewrite pending_partialDrain. lia.
  - rewrite IH; [by rewrite drainAll_partialDrain by lia|]. rewrite pending_partialDrain. lia.
  - destruct (finishCommit_cases (drainAll w s).1 (drainAll w s).2) as [->|[s' ->]]; done.
Qed.

Lemma commit_first_batch clock maxTimeMs w s :
  (100 < pending (commitQueue s))%nat ->
  timeExceeded clock 1 (clock 0%nat) maxTimeMs = true ->
  exists nr na, (nr + na = 100)%nat /\
    commit clock maxTimeMs w s
    = Some (false, (partialDrain nr na w s).1, (partialDrain nr na w s).2) /\
    pending (commitQueue (partialDrain nr na w s).2) = (pending (commitQueue s) - 100)%nat.
Proof.
  intros Hp Hclock. unfold pending in Hp.
  set (nR := length (removeList (commitQueue s))) in *.
  set (nA := length (addList (commitQueue s))) in *.
  pose proof (commitLoop_first_check setRemoveList remove (fun _ _ _ => eq_refl) remove_setQueue
                clock (clock 0%nat) maxTimeMs Hclock) as Hrem.
  pose proof (commitLoop_first_check setAddList add_ (fun _ _ _ => eq_refl) add__setQueue
                clock (clock 0%nat) maxTimeMs Hclock) as Hadd.
  destruct (decide (100 <= nR)%nat) as [Hbig|Hsmall].
  - exists 100%nat, 0%nat. split; [done|].
    destruct (Hrem (removeList (commitQueue s)) 0 w s) as [H1 _]; [lia|].
    unfold commit. rewrite H1 by (fold nR; lia).
    change (Z.to_nat (100 - 0)) with 100%nat. rewrite after_removes.
    split; [done|]. rewrite pending_partialDrain. unfold pending. fold nR nA. lia.
  - exists nR, (100 - nR)%nat. split; [lia|].
    destruct (Hrem (removeList (commitQueue s)) 0 w s) as [_ H2]; [lia|].
    destruct H2 as (w1 & s1 & Hloop); [fold nR; lia|].
    rewrite Z.add_0_l in Hloop. fold nR in Hloop.
    unfold commit. rewrite Hloop.
    apply (commitLoop_drained setRemoveList remove (fun _ _ _ => eq_refl) remove_setQueue) in Hloop;
      [|apply setRemoveList_id].
    destruct Hloop as (_ & Heq). rewrite after_removes in Heq. fold nR in Heq.
    assert (Hw1 : w1 = (partialDrain nR 0 w s).1) by (change w1 with (w1, s1).1; by rewrite Heq).
    assert (Hs1 : s1 = (partialDrain nR 0 w s).2) by (change s1 with (w1, s1).2; by rewrite Heq).
    assert (Hq1 : addList (commitQueue s1) = addList (commitQueue s)) by (by rewrite Hs1).
    rewrite Hq1.
    destruct (Hadd (addList (commitQueue s)) (Z.of_nat nR) w1 s1) as [H1 _]; [lia|].
    rewrite H1 by (fold nA; lia).
    replace (Z.to_nat (100 - Z.of_nat nR)) with (100 - nR)%nat by lia.
    rewrite Hw1, Hs1, after_adds. split; [done|].
    rewrite pending_partialDrain. unfold pending. fold nR nA. lia.
Qed.

End Commit.

(** ** The loops and the queue; the comparator *)

Section Unfold.
Context `{E : External}.

(** The loop over the pending removals is the [while (true)] of lines
    148-153: ask [tryGetRemove], stop on [undefined], otherwise [remove],
    count, check the time, and go round again on what is queued then. *)
Lemma commitLoop_tryGetRemove clock start maxTimeMs i reads w s :
  commitLoop setRemoveList remove clock start maxTimeMs (removeList (commitQueue s)) i reads w s
  = match tryGetRemove (commitQueue s) with
    | (None, _) => Drained i reads w s
    | (Some o, q') =>
        let '(w1, s1) := remove o w (setQueue q' s) in
        if ((i + 1) mod commitBulkSize =? 0) && timeExceeded clock reads start maxTimeMs
        then TimedOut w1 s1
        else commitLoop setRemoveList remove clock start maxTimeMs
               (removeList (commitQueue s1)) (i + 1)
               (if (i + 1) mod commitBulkSize =? 0 then S reads else reads) w1 s1
    end.
Proof.
  unfold tryGetRemove. destruct (removeList (commitQueue s)) as [|o rest]; [reflexivity|].
  cbn [commitLoop]. rewrite remove_setQueue.
  destruct (remove o w s) as [w1 s1]. cbn [fst snd commitQueue setQueue removeList setRemoveList].
  destruct (_ =? 0); [|reflexivity]. by destruct (timeExceeded _ _ _ _).
Qed.

Lemma commitLoop_tryGetAdd clock start maxTimeMs i reads w s :
  commitLoop setAddList add_ clock start maxTimeMs (addList (commitQueue s)) i reads w s
  = match tryGetAdd (commitQueue s) with
    | (None, _) => Drained i reads w s
    | (Some o, q') =>
        let '(w1, s1) := add_ o w (setQueue q' s) in
        if ((i + 1) mod commitBulkSize =? 0) && timeExceeded clock reads start maxTimeMs
        then TimedOut w1 s1
        else commitLoop setAddList add_ clock start maxTimeMs
               (addList (commitQueue s1)) (i + 1)
               (if (i + 1) mod commitBulkSize =? 0 then S reads else reads) w1 s1
    end.
Proof.
  unfold tryGetAdd. destruct (addList (commitQueue s)) as [|o rest]; [reflexivity|].
  cbn [commitLoop]. rewrite add__setQueue.
  destruct (add_ o w s) as [w1 s1]. cbn [fst snd commitQueue setQueue addList setAddList].
  destruct (_ =? 0); [|reflexivity]. by destruct (timeExceeded _ _ _ _).
Qed.

(** Line 49: when [b] has no colorBlended program its draw program is
    taken from [a]; if [a] has none either, the two program ids are the
    same number and the order is decided by material and drawable id. *)
Lemma renderableSort_without_colorBlended w a b pa :
  getProgram w a colorBlended = None ->
  getProgram w b colorBlended = None ->
  getProgram w a colorWboit = Some pa ->
  renderableSort w a b
  = Some (if negb (r_materialId a =? r_materialId b) then r_materialId a - r_materialId b
          else r_id a - r_id b).
Proof.
  intros Ha Hb Hw. unfold renderableSort. rewrite Ha, Hb, Hw. cbn.
  rewrite Z.eqb_refl. cbn. by destruct (negb _).
Qed.

End Unfold.

(** ** The sort *)

Section Sort.
Context {A : Type} (cmp : A -> A -> option Z).

Lemma insertSorted_perm x l l' : insertSorted cmp x l = Some l' -> l' ≡ₚ x :: l.
Proof.
  revert l'. induction l as [|y l IH]; intros l'; cbn.
  - by intros [= <-].
  - destruct (cmp x y) as [c|]; [|done]. cbn. destruct (c <=? 0).
    + by intros [= <-].
    + destruct (insertSorted cmp x l) as [r|]; [|done]. cbn. intros [= <-].
      rewrite (IH r eq_refl). apply Permutation_swap.
Qed.

Lemma arraySort_perm l l' : arraySort cmp l = Some l' -> l' ≡ₚ l.
Proof.
  revert l'. induction l as [|x l IH]; intros l'; cbn.
  - by intros [= <-].
  - destruct (arraySort cmp l) as [r|]; [|done]. cbn. intros Hins.
    apply insertSorted_perm in Hins. rewrite Hins. by rewrite (IH r eq_refl).
Qed.

(** A comparator that never throws on the elements at hand and answers
    like a total preorder [ord a b <= 0]. *)
Variable ord : A -> A -> Z.
Hypothesis ord_total : forall a b, ord a b <= 0 \/ ord b a <= 0.
Hypothesis ord_trans : forall a b c, ord a b <= 0 -> ord b c <= 0 -> ord a c <= 0.

Lemma elem_of_skip_second (a x y : A) l : a ∈ x :: l -> a ∈ x :: y :: l.
Proof. intros [->|Ha]%elem_of_cons; [by left | by do 2 right]. Qed.

Lemma insertSorted_sorted x l l' :
  (forall a b, a ∈ x :: l -> b ∈ x :: l -> cmp a b = Some (ord a b)) ->
  StronglySorted (fun a b => ord a b <= 0) l ->
  insertSorted cmp x l = Some l' ->
  StronglySorted (fun a b => ord a b <= 0) l'.
Proof.
  revert l'. induction l as [|y l IH]; intros l' Hcmp Hsorted; cbn.
  - intros [= <-]. repeat constructor.
  - rewrite (Hcmp x y) by (by repeat constructor). cbn. destruct (ord x y <=? 0) eqn:Hxy.
    + intros [= <-]. apply Z.leb_le in Hxy. constructor; [done|].
      constructor; [done|]. apply StronglySorted_inv in Hsorted as [_ Hall].
      eapply Forall_impl; [exact Hall|]. intros z Hz. by eapply ord_trans.
    + apply Z.leb_gt in Hxy. destruct (insertSorted cmp x l) as [r|] eqn:Hins; [|done].
      cbn. intros [= <-]. apply StronglySorted_inv in Hsorted as [Htail Hall].
      constructor.
      * apply (IH r); [|done|done]. intros a b Ha Hb.
        apply Hcmp; by apply elem_of_skip_second.
      * apply insertSorted_perm in Hins. rewrite Hins. constructor; [|done].
        destruct (ord_total x y); lia.
Qed.

Lemma arraySort_sorted l l' :
  (forall a b, a ∈ l -> b ∈ l -> cmp a b = Some (ord a b)) ->
  arraySort cmp l = Some l' ->
  StronglySorted (fun a b => ord a b <= 0) l'.
Proof.
  revert l'. induction l as [|x l IH]; intros l' Hcmp; cbn.
  - intros [= <-]. constructor.
  - destruct (arraySort cmp l) as [r|] eqn:Hr; [|done]. cbn. intros Hins.
    apply (insertSorted_sorted x r); [| |done].
    + intros a b Ha Hb. apply Hcmp.
      * rewrite <- (arraySort_perm _ _ Hr). done.
      * rewrite <- (arraySort_perm _ _ Hr). done.
    + apply IH; [|done]. intros a b Ha Hb. apply Hcmp; by right.
Qed.

End Sort.



(** ** The averages *)

Section Statistics.
Context `{E : External}.

(** Both averaging loops count the visible entries and sum their terms from
    the left. *)
Lemma average_loop (term : GraphicsRenderable -> float) (l : list GraphicsRenderable)
  (w : World) : forall (count : Z) (sum : float),
  fold_left (fun '(count, sum) p =>
               if negb (visible (state w p)) then (count, sum)
               else (count + 1, PrimFloat.add sum (term p))) l (count, sum)
  = (count + Z.of_nat (length (List.filter (fun p => visible (state w p)) l)),
     fold_left PrimFloat.add (map term (List.filter (fun p => visible (state w p)) l)) sum).
Proof.
  induction l as [|p l IH]; intros count sum; cbn [fold_left List.filter].
  - cbn. f_equal. lia.
  - destruct (visible (state w p)); cbn [negb].
    + rewrite IH. cbn [length map fold_left]. f_equal. lia.
    + apply IH.
Qed.

Lemma average_mean (term : GraphicsRenderable -> float) (l : list GraphicsRenderable)
  (w : World) :
  (let '(count, sum) :=
     fold_left (fun '(count, sum) p =>
                  if negb (visible (state w p)) then (count, sum)
                  else (count + 1, PrimFloat.add sum (term p))) l (0, 0%float) in
   if 0 <? count then PrimFloat.div sum (toFloat count) else 0%float)
  = mean (map term (List.filter (fun p => visible (state w p)) l)).
Proof.
  rewrite average_loop. rewrite Z.add_0_l.
  destruct (List.filter _ l) as [|p vis]; [reflexivity|].
  cbn [length map mean]. rewrite length_map. destruct (0 <? _) eqn:Hpos; [reflexivity|].
  apply Z.ltb_ge in Hpos. lia.
Qed.

Lemma calculateOpacityAverage_mean w s :
  calculateOpacityAverage w s = mean (map (opacityTerm w) (visiblePrimitives w s)).
Proof.
  unfold calculateOpacityAverage, visiblePrimitives.
  destruct (primitives s) as [|p l] eqn:Hp; [reflexivity|].
  cbn [length Z.of_nat Z.eqb]. change (Z.pos _ =? 0) with false. cbv iota.
  exact (average_mean (opacityTerm w) (p :: l) w).
Qed.

Lemma calculateMarkerAverage_mean w s :
  calculateMarkerAverage w s
  = mean (map (fun p => v_markerAverage (values w p)) (visiblePrimitives w s)).
Proof.
  unfold calculateMarkerAverage, visiblePrimitives.
  destruct (primitives s) as [|p l] eqn:Hp; [reflexivity|].
  change (Z.of_nat (length (p :: l)) =? 0) with false. cbv iota.
  exact (average_mean (fun p => v_markerAverage (values w p)) (p :: l) w).
Qed.

(** C7.  The opacity average is the mean, over the visible drawables of the
    primitive partition, of [(1 - transparencyAverage) * clamp(alpha *
    alphaFactor, 0, 1) * xray] with [xray] 0.5 under x-ray shading and 1
    otherwise; it is 0 without a visible primitive.  It and the marker
    average are functions of the primitive partition alone, and a drawable
    of type direct-volume never enters that partition. *)
Theorem opacityAverage_is_mean_over_visible_primitives (w : World) (s : Scene) :
  calculateOpacityAverage w s = mean (map (opacityTerm w) (visiblePrimitives w s)) /\
  (visiblePrimitives w s = [] -> calculateOpacityAverage w s = 0%float) /\
  (forall p, opacityTerm w p
     = PrimFloat.mul
         (PrimFloat.mul (PrimFloat.sub 1%float (v_transparencyAverage (values w p)))
            (clamp (PrimFloat.mul (v_alpha (values w p)) (alphaFactor (state w p)))
                   0%float 1%float))
         (if bool_decide (v_dXrayShaded (values w p) = Some true) then 0.5%float else 1%float)) /\
  calculateMarkerAverage w s
    = mean (map (fun p => v_markerAverage (values w p)) (visiblePrimitives w s)) /\
  (forall s', primitives s' = primitives s ->
     calculateOpacityAverage w s' = calculateOpacityAverage w s /\
     calculateMarkerAverage w s' = calculateMarkerAverage w s) /\
  (forall o, o_type o = "direct-volume" ->
     primitives (add o w s).2 = primitives s).
Proof.
  split; [apply calculateOpacityAverage_mean|].
  split; [intros Hnone; by rewrite calculateOpacityAverage_mean, Hnone|].
  split.
  { intros p. unfold opacityTerm. by destruct (v_dXrayShaded (values w p)) as [[]|]. }
  split; [apply calculateMarkerAverage_mean|].
  split.
  { intros s' Hs'. rewrite !calculateOpacityAverage_mean, !calculateMarkerAverage_mean.
    unfold visiblePrimitives. by rewrite Hs'. }
  intros o Ho. unfold add. destruct (renderableMap s !! o); [reflexivity|].
  destruct (createRenderable w o). cbn. by rewrite Ho.
Qed.

End Statistics.

(** ** Registry, visibility and the commit protocol *)

Section Visibility.
Context `{E : External}.

(** C8.  Adding a descriptor that is registered already warns, returns the
    existing instance, and hands the scene back as it was: live list,
    partitions, map, queue and dirty flags included. *)
Theorem add_registered_is_noop (o : GraphicsRenderObject) (w : World) (s : Scene)
  (existing : GraphicsRenderable) :
  renderableMap s !! o = Some existing ->
  add o w s = (existing, console_warn w o, s).
Proof. intros Hhas. unfold add. by rewrite Hhas. Qed.

(** The fingerprint reads the live list and the visibility flags only. *)
Lemma computeVisibleHash_ext w w' s :
  (forall r, r ∈ renderables s -> visible (state w' r) = visible (state w r)) ->
  computeVisibleHash w' s = computeVisibleHash w s.
Proof.
  intros Hvis. unfold computeVisibleHash.
  enough (forall h, fold_left (fun hash r => if negb (visible (state w' r)) then hash
                                  else toInt32 (31 * hash + r_id r)) (renderables s) h
                = fold_left (fun hash r => if negb (visible (state w r)) then hash
                                  else toInt32 (31 * hash + r_id r)) (renderables s) h) as ->
    by reflexivity.
  induction (renderables s) as [|r l IH]; intros h; [reflexivity|].
  cbn [fold_left]. rewrite Hvis by constructor. rewrite IH; [reflexivity|].
  intros r' Hr'. apply Hvis. by constructor.
Qed.

Lemma computeVisibleHash_not_sentinel w s : computeVisibleHash w s <> -1.
Proof.
  unfold computeVisibleHash. destruct (_ =? -1) eqn:Hh; [done|]. by apply Z.eqb_neq in Hh.
Qed.

(** With [onlyVisible] the two passes see the visible drawables only. *)
Lemma calculateBoundingSphere_visible w rs :
  calculateBoundingSphere w rs true
  = calculateBoundingSphere w (List.filter (fun r => visible (state w r)) rs) false.
Proof.
  unfold calculateBoundingSphere.
  assert (Hpass : forall (f : BoundaryHelper -> Sphere3D -> BoundaryHelper) h,
    fold_left (fun h r => if skipped w true r then h
                          else f h (v_boundingSphere (values w r))) rs h
    = fold_left (fun h r => if skipped w false r then h
                            else f h (v_boundingSphere (values w r)))
        (List.filter (fun r => visible (state w r)) rs) h).
  { intros f. induction rs as [|r rs IH]; intros h; [reflexivity|].
    cbn [fold_left List.filter]. destruct (visible (state w r)) eqn:Hv.
    - cbn [fold_left].
      replace (skipped w true r) with (skipped w false r)
        by (unfold skipped; by rewrite Hv).
      apply IH.
    - replace (skipped w true r) with true by (unfold skipped; by rewrite Hv).
      apply IH. }
  by rewrite !Hpass.
Qed.

(** A dirty read of the visible-only sphere stores the fingerprint, and a
    [syncVisibility] under the same visibility flags then finds it. *)
Lemma read_then_sync w w' s :
  boundingSphereVisibleDirty s = true ->
  (forall r, r ∈ renderables s -> visible (state w' r) = visible (state w r)) ->
  syncVisibility w' (get_boundingSphereVisible w s).2
  = (false, (get_boundingSphereVisible w s).2).
Proof.
  intros Hdirty Hsame. unfold get_boundingSphereVisible. rewrite Hdirty. cbn [snd].
  unfold syncVisibility. cbn [visibleHash].
  match goal with |- context [computeVisibleHash w' ?x] =>
    change (computeVisibleHash w' x) with (computeVisibleHash w' s) end.
  rewrite (computeVisibleHash_ext w w' s Hsame), Z.eqb_refl. reflexivity.
Qed.

(** C9.  Reading the visible-only sphere while it is dirty recomputes it
    over the visible drawables, clears the flag and stores the current
    fingerprint, so that a [syncVisibility] that follows with the same
    visibility flags reports no change and leaves the scene alone. *)
Theorem boundingSphereVisible_read_refreshes_fingerprint (w : World) (s : Scene) :
  boundingSphereVisibleDirty s = true ->
  let sphere := (get_boundingSphereVisible w s).1 in
  let s' := (get_boundingSphereVisible w s).2 in
  sphere = calculateBoundingSphere w
             (List.filter (fun r => visible (state w r)) (renderables s)) false /\
  boundingSphereVisible s' = sphere /\
  boundingSphereVisibleDirty s' = false /\
  visibleHash s' = computeVisibleHash w s /\
  forall w', (forall r, r ∈ renderables s -> visible (state w' r) = visible (state w r)) ->
             syncVisibility w' s' = (false, s').
Proof.
  intros Hdirty. cbv zeta. split; [|split; [|split; [|split]]].
  - unfold get_boundingSphereVisible. rewrite Hdirty. apply calculateBoundingSphere_visible.
  - unfold get_boundingSphereVisible. by rewrite Hdirty.
  - unfold get_boundingSphereVisible. by rewrite Hdirty.
  - unfold get_boundingSphereVisible. by rewrite Hdirty.
  - intros w' Hsame. by apply read_then_sync.
Qed.

(** [syncVisibility] answers by comparing fingerprints, and leaves the
    stored fingerprint and the live list as they are. *)
Lemma syncVisibility_changed w s :
  (syncVisibility w s).1 = negb (computeVisibleHash w s =? visibleHash s).
Proof. unfold syncVisibility. by destruct (negb _). Qed.

Lemma syncVisibility_scene w s :
  visibleHash (syncVisibility w s).2 = visibleHash s /\
  renderables (syncVisibility w s).2 = renderables s /\
  ((syncVisibility w s).1 = true -> boundingSphereVisibleDirty (syncVisibility w s).2 = true).
Proof. unfold syncVisibility. by destruct (negb _). Qed.

Lemma computeVisibleHash_renderables w s s' :
  renderables s' = renderables s -> computeVisibleHash w s' = computeVisibleHash w s.
Proof. intros Hr. unfold computeVisibleHash. by rewrite Hr. Qed.

(** C3.  [syncVisibility] reports a change exactly when the fingerprint of
    the visible drawables differs from the stored one, and it does not
    store the new one.  So it reports no change when the visibility flags
    are those the stored fingerprint was taken from; a second call, with
    no visibility change in between, repeats the answer of the first; and
    the second call reports no change once the visible-only sphere has been
    read in between, which is where the fingerprint is stored. *)
Theorem syncVisibility_twice (w : World) (s : Scene) :
  ((syncVisibility w s).1 = true <-> computeVisibleHash w s <> visibleHash s) /\
  (forall w0, visibleHash s = computeVisibleHash w0 s ->
     (forall r, r ∈ renderables s -> visible (state w r) = visible (state w0 r)) ->
     syncVisibility w s = (false, s)) /\
  (forall w', (forall r, r ∈ renderables s -> visible (state w' r) = visible (state w r)) ->
     (syncVisibility w' (syncVisibility w s).2).1 = (syncVisibility w s).1) /\
  (forall w', (forall r, r ∈ renderables s -> visible (state w' r) = visible (state w r)) ->
     (syncVisibility w s).1 = true ->
     let s2 := (get_boundingSphereVisible w' (syncVisibility w s).2).2 in
     syncVisibility w' s2 = (false, s2)).
Proof.
  destruct (syncVisibility_scene w s) as (Hhash & Hlist & Hdirty).
  split; [|split; [|split]].
  - rewrite syncVisibility_changed, negb_true_iff, Z.eqb_neq. done.
  - intros w0 Hstored Hsame. unfold syncVisibility.
    rewrite Hstored, (computeVisibleHash_ext w0 w s Hsame), Z.eqb_refl. done.
  - intros w' Hsame. rewrite !syncVisibility_changed, Hhash.
    rewrite (computeVisibleHash_renderables w' _ _ Hlist).
    by rewrite (computeVisibleHash_ext w w' s Hsame).
  - intros w' Hsame Hchanged. cbv zeta.
    apply read_then_sync; [by apply Hdirty|]. by rewrite Hlist.
Qed.


(** On a new scene the stored fingerprint is the sentinel -1, which
    [computeVisibleHash] never returns: every [syncVisibility] reports a
    change until the visible-only sphere is read. *)
Lemma syncVisibility_on_new_scene (w : World) :
  (syncVisibility w create).1 = true /\
  (syncVisibility w (syncVisibility w create).2).1 = true.
Proof.
  rewrite !syncVisibility_changed.
  destruct (syncVisibility_scene w create) as (-> & Hlist & _).
  rewrite (computeVisibleHash_renderables w _ _ Hlist).
  pose proof (computeVisibleHash_not_sentinel w create) as Hne.
  apply Z.eqb_neq in Hne. cbn [visibleHash create]. by rewrite Hne.
Qed.

(** The registry operations of a whole list keep the caches. *)
Lemma runOps_remove_inv os : forall w s, sameCaches s (runOps remove os (w, s)).2.
Proof.
  induction os as [|o os IH]; intros w s.
  - apply sameCaches_refl.
  - change (runOps remove (o :: os) (w, s)) with (runOps remove os (remove o w s)).
    destruct (remove o w s) as [w1 s1] eqn:Hrem.
    pose proof (remove_sameCaches o w s) as Hc1. rewrite Hrem in Hc1.
    eapply sameCaches_trans; [exact Hc1 | apply IH].
Qed.

Lemma runOps_add_inv os : forall w s,
  sameCaches s (runOps add_ os (w, s)).2 /\
  exists new, renderables (runOps add_ os (w, s)).2 = renderables s ++ new.
Proof.
  induction os as [|o os IH]; intros w s.
  - split; [apply sameCaches_refl|]. exists []. cbn. by rewrite app_nil_r.
  - change (runOps add_ (o :: os) (w, s)) with (runOps add_ os (add_ o w s)).
    destruct (add_ o w s) as [w1 s1] eqn:Hadd.
    destruct (IH w1 s1) as [Hc (new & Hl)].
    pose proof (add__sameCaches o w s) as Hc1.
    destruct (add__renderables o w s) as (new1 & Hl1).
    rewrite Hadd in Hc1, Hl1. cbn [snd] in Hc1, Hl1.
    split; [by eapply sameCaches_trans|]. exists (new1 ++ new).
    by rewrite Hl, Hl1, app_assoc.
Qed.

Lemma partialDrain_inv nr na w s :
  let s' := (partialDrain nr na w s).2 in
  markerAverage s' = markerAverage s /\ opacityAverage s' = opacityAverage s /\
  visibleHash s' = visibleHash s /\ boundingSphere s' = boundingSphere s /\
  boundingSphereVisible s' = boundingSphereVisible s /\
  exists new,
    renderables s'
    = renderables (runOps remove (take nr (removeList (commitQueue s))) (w, s)).2 ++ new.
Proof.
  unfold partialDrain.
  cbn [snd setQueue markerAverage opacityAverage visibleHash renderables boundingSphere
       boundingSphereVisible].
  pose proof (runOps_remove_inv (take nr (removeList (commitQueue s))) w s) as Hc1.
  destruct (runOps remove _ (w, s)) as [w1 s1] eqn:Hrem. cbn [snd] in Hc1 |- *.
  destruct (runOps_add_inv (take na (addList (commitQueue s))) w1 s1) as [Hc2 (new & Hl2)].
  destruct Hc1 as (? & ? & ? & ? & ? & _), Hc2 as (? & ? & ? & ? & ? & _).
  repeat split; try congruence. by exists new.
Qed.

Lemma drainAll_inv w s :
  markerAverage (drainAll w s).2 = markerAverage s /\
  commitQueue (drainAll w s).2 = emptyQueue.
Proof.
  rewrite <- partialDrain_all. split; [apply partialDrain_inv|].
  unfold partialDrain. cbn. by rewrite !drop_all.
Qed.

Lemma finishCommit_inv w s b w' s' :
  finishCommit w s = Some (b, w', s') ->
  b = true /\ w' = w /\ opacityAverage s' = calculateOpacityAverage w' s' /\
  markerAverage s' = markerAverage s /\ commitQueue s' = commitQueue s /\
  renderableMap s' = renderableMap s /\
  arraySort (renderableSort w) (renderables s) = Some (renderables s').
Proof.
  unfold finishCommit. destruct (arraySort _ _) as [sorted|]; [|done].
  cbn. intros [= <- <- <-]. done.
Qed.

(** C4.  [update] recomputes both averages.  A [commit] that completes and
    a [syncVisibility] that reports a change recompute the opacity average
    and leave the marker average as it was. *)
Theorem averages_recomputed (w : World) (s : Scene) :
  (forall objects keepBoundingSphere,
     let w' := (update objects keepBoundingSphere w s).1 in
     let s' := (update objects keepBoundingSphere w s).2 in
     markerAverage s' = calculateMarkerAverage w' s' /\
     opacityAverage s' = calculateOpacityAverage w' s') /\
  (forall clock maxTimeMs w' s',
     commit clock maxTimeMs w s = Some (true, w', s') ->
     opacityAverage s' = calculateOpacityAverage w' s' /\
     markerAverage s' = markerAverage s) /\
  (forall s', syncVisibility w s = (true, s') ->
     opacityAverage s' = calculateOpacityAverage w s' /\
     markerAverage s' = markerAverage s).
Proof.
  split; [|split].
  - intros objects keep. unfold update. cbn [fst snd]. split; reflexivity.
  - intros clock maxTimeMs w' s' Hcommit.
    destruct (commit_cases clock maxTimeMs w s) as [(nr & _ & Hc)|[(na & _ & _ & Hc)|Hc]];
      rewrite Hc in Hcommit; try discriminate.
    apply finishCommit_inv in Hcommit. destruct Hcommit as (_ & _ & Hop & Hm & _).
    split; [done|]. rewrite Hm. apply drainAll_inv.
  - intros s'. unfold syncVisibility. destruct (negb _); [|done].
    intros [= <-]. split; reflexivity.
Qed.

(** C10.  A [commit] that returns [false] has only run registry
    operations: the state is that of a prefix of the queued removals and
    additions ([partialDrain]), so both averages, the stored fingerprint
    and the cached spheres are the ones from before the call, and the live
    list is the one the removals left with the new drawables appended: no
    sort took place. *)
Theorem commit_incomplete_frame (clock : nat -> float) (maxTimeMs : float)
  (w w' : World) (s s' : Scene) :
  commit clock maxTimeMs w s = Some (false, w', s') ->
  markerAverage s' = markerAverage s /\
  opacityAverage s' = opacityAverage s /\
  visibleHash s' = visibleHash s /\
  boundingSphere s' = boundingSphere s /\
  boundingSphereVisible s' = boundingSphereVisible s /\
  exists nr na,
    (w', s') = partialDrain nr na w s /\
    exists new,
      renderables s'
      = renderables (runOps remove (take nr (removeList (commitQueue s))) (w, s)).2 ++ new.
Proof.
  intros Hcommit.
  assert (Hpd : exists nr na, (w', s') = partialDrain nr na w s).
  { destruct (commit_cases clock maxTimeMs w s) as [(nr & _ & Hc)|[(na & _ & _ & Hc)|Hc]];
      rewrite Hc in Hcommit.
    - exists nr, 0%nat. remember (partialDrain nr 0 w s) as pd. destruct pd.
      by injection Hcommit as <- <-.
    - exists (length (removeList (commitQueue s))), na.
      remember (partialDrain _ na w s) as pd. destruct pd.
      by injection Hcommit as <- <-.
    - by apply finishCommit_inv in Hcommit as [? _]. }
  destruct Hpd as (nr & na & Hpd).
  assert (Hs' : s' = (partialDrain nr na w s).2) by (by rewrite <- Hpd).
  destruct (partialDrain_inv nr na w s) as (Hm & Ho & Hh & Hb & Hv & Hl).
  rewrite <- Hs' in Hm, Ho, Hh, Hb, Hv, Hl.
  repeat split; try done. by exists nr, na.
Qed.

(** C2.  One invocation of [commit] runs a prefix of the queued removals
    and then a prefix of the queued additions, in queue order; an addition
    is only run when no removal is left; what was not run is still queued,
    in the same order; and only when nothing is left does the invocation
    go on to the sort. *)
Theorem commit_removals_before_additions (clock : nat -> float) (maxTimeMs : float)
  (w : World) (s : Scene) :
  exists nr na : nat,
    (nr <= length (removeList (commitQueue s)))%nat /\
    (na <= length (addList (commitQueue s)))%nat /\
    (0 < na -> nr = length (removeList (commitQueue s)))%nat /\
    let ws := runOps add_ (take na (addList (commitQueue s)))
                (runOps remove (take nr (removeList (commitQueue s))) (w, s)) in
    let rest := {| removeList := drop nr (removeList (commitQueue s));
                   addList := drop na (addList (commitQueue s)) |} in
    commit clock maxTimeMs w s = Some (false, ws.1, setQueue rest ws.2) \/
    nr = length (removeList (commitQueue s)) /\ na = length (addList (commitQueue s)) /\
    commit clock maxTimeMs w s = finishCommit ws.1 (setQueue rest ws.2).
Proof.
  destruct (commit_cases clock maxTimeMs w s) as [(nr & Hnr & Hc)|[(na & Hna & _ & Hc)|Hc]].
  - exists nr, 0%nat. repeat split; try lia. by left.
  - exists (length (removeList (commitQueue s))), na. repeat split; try lia. by left.
  - exists (length (removeList (commitQueue s))), (length (addList (commitQueue s))).
    repeat split; try lia. right. repeat split.
    rewrite Hc, <- partialDrain_all. reflexivity.
Qed.

(** C1.  (a) With more than one batch pending and the clock past the budget
    when the first batch of 100 operations is done, [commit] returns
    [false] and leaves the queue non-empty.  (b) Calling [commit] again
    and again reaches the completion path after at most one call per 100
    pending operations, whatever the clocks and budgets of the calls, and
    always in the same state, that of one uninterrupted drain.  (c) There
    the call returns [true] with an empty queue, unless the comparator
    throws. *)
Theorem commit_time_sliced (w : World) (s : Scene) :
  (forall clock maxTimeMs,
     (100 < pending (commitQueue s))%nat ->
     timeExceeded clock 1 (clock 0%nat) maxTimeMs = true ->
     exists w' s', commit clock maxTimeMs w s = Some (false, w', s') /\
                   isEmpty (commitQueue s') = false) /\
  (forall n clocks budgets,
     (pending (commitQueue s) < 100 * S n)%nat ->
     commitRepeat n clocks budgets w s = finishCommit (drainAll w s).1 (drainAll w s).2) /\
  (forall sorted,
     arraySort (renderableSort (drainAll w s).1) (renderables (drainAll w s).2) = Some sorted ->
     exists sF,
       finishCommit (drainAll w s).1 (drainAll w s).2 = Some (true, (drainAll w s).1, sF) /\
       isEmpty (commitQueue sF) = true /\
       renderables sF = sorted /\
       renderableMap sF = renderableMap (drainAll w s).2).
Proof.
  split; [|split].
  - intros clock maxTimeMs Hp Hclock.
    destruct (commit_first_batch clock maxTimeMs w s Hp Hclock) as (nr & na & _ & Hc & Hleft).
    eexists _, _. split; [exact Hc|]. rewrite isEmpty_pending, Hleft.
    apply bool_decide_eq_false. lia.
  - intros n clocks budgets. apply commitRepeat_drains.
  - intros sorted Hsort.
    set (s1 := setRenderables sorted (drainAll w s).2).
    exists (setAverages (markerAverage s1) (calculateOpacityAverage (drainAll w s).1 s1) s1).
    split; [unfold finishCommit; by rewrite Hsort|].
    split; [|done].
    change (isEmpty (commitQueue (drainAll w s).2) = true).
    by destruct (drainAll_inv w s) as [_ ->].
Qed.

End Visibility.

(** ** The draw order *)

Section DrawOrder.
Context `{E : External}.

Lemma renderableSort_colorBlended w a b :
  is_Some (getProgram w a colorBlended) -> is_Some (getProgram w b colorBlended) ->
  renderableSort w a b = Some (blendedOrder w a b).
Proof.
  intros [pa Ha] [pb Hb]. unfold renderableSort, blendedOrder. rewrite Ha, Hb. cbn.
  repeat destruct (negb _); reflexivity.
Qed.

Lemma blendedOrder_total w a b : blendedOrder w a b <= 0 \/ blendedOrder w b a <= 0.
Proof.
  unfold blendedOrder. cbv zeta.
  repeat match goal with |- context [?x =? ?y] => destruct (Z.eqb_spec x y) end;
    cbn [negb]; lia.
Qed.

Lemma blendedOrder_trans w a b c :
  blendedOrder w a b <= 0 -> blendedOrder w b c <= 0 -> blendedOrder w a c <= 0.
Proof.
  unfold blendedOrder. cbv zeta.
  repeat match goal with |- context [?x =? ?y] => destruct (Z.eqb_spec x y) end;
    cbn [negb]; lia.
Qed.

Lemma blendedOrder_drawOrder w a b :
  is_Some (getProgram w a colorBlended) -> is_Some (getProgram w b colorBlended) ->
  blendedOrder w a b <= 0 -> drawOrder w a b.
Proof.
  intros [pa Ha] [pb Hb]. unfold blendedOrder, drawOrder, drawProgramId.
  rewrite Ha, Hb. cbn. intros Hord. exists (p_id pa), (p_id pb).
  split; [done|]. split; [done|].
  repeat match type of Hord with context [?x =? ?y] => destruct (Z.eqb_spec x y) end;
    cbn [negb] in Hord; lia.
Qed.

(** X10.  Where every live drawable has a colorBlended program, a complete
    [commit] leaves the live list in draw order: program id, then material
    id, then drawable id. *)
Lemma commit_sorts_colorBlended clock maxTimeMs w s w' s' :
  commit clock maxTimeMs w s = Some (true, w', s') ->
  (forall r, r ∈ renderables s' -> is_Some (getProgram w' r colorBlended)) ->
  StronglySorted (drawOrder w') (renderables s').
Proof.
  intros Hcommit Hblended.
  destruct (commit_cases clock maxTimeMs w s) as [(nr & _ & Hc)|[(na & _ & _ & Hc)|Hc]];
    rewrite Hc in Hcommit; try discriminate.
  apply finishCommit_inv in Hcommit. destruct Hcommit as (_ & -> & _ & _ & _ & _ & Hsort).
  pose proof (arraySort_perm _ _ _ Hsort) as Hperm.
  assert (Hin : forall r, r ∈ renderables (drainAll w s).2 ->
                          is_Some (getProgram (drainAll w s).1 r colorBlended)).
  { intros r Hr. apply Hblended. by rewrite Hperm. }
  pose proof (arraySort_sorted _ (blendedOrder (drainAll w s).1)
                (blendedOrder_total _) (blendedOrder_trans _) _ _
                (fun a b Ha Hb => renderableSort_colorBlended _ a b (Hin a Ha) (Hin b Hb)) Hsort)
    as Hsorted.
  assert (Hall : Forall (fun r => is_Some (getProgram (drainAll w s).1 r colorBlended))
                   (renderables s')) by (by apply Forall_forall).
  clear Hsort Hperm Hblended Hin. induction Hsorted as [|x l Hl IH Hx]; [constructor|].
  apply Forall_cons in Hall as [Hxb Hlb]. constructor; [by apply IH|].
  apply Forall_forall. intros y Hy. rewrite Forall_forall in Hx, Hlb.
  apply blendedOrder_drawOrder; auto.
Qed.

End DrawOrder.

(** ** clear *)

Section Clear.
Context `{E : External}.

(** C6.  After [clear()] the count is 0 and each bounding sphere, when
    read, is recomputed over no drawable at all (whatever was cached
    before) and is clean afterwards.  The two averages are not touched by
    [clear()]: a read returns the value cached before, and the next
    [update] sets both to 0. *)
Theorem clear_then_read (w : World) (s : Scene) :
  let w1 := (clear w s).1 in
  let s1 := (clear w s).2 in
  get_count s1 = 0 /\
  (forall w', (get_boundingSphere w' s1).1 = emptyBoundary /\
              boundingSphere (get_boundingSphere w' s1).2 = emptyBoundary /\
              boundingSphereDirty (get_boundingSphere w' s1).2 = false) /\
  (forall w', (get_boundingSphereVisible w' s1).1 = emptyBoundary /\
              boundingSphereVisible (get_boundingSphereVisible w' s1).2 = emptyBoundary /\
              boundingSphereVisibleDirty (get_boundingSphereVisible w' s1).2 = false) /\
  get_markerAverage s1 = markerAverage s /\
  get_opacityAverage s1 = opacityAverage s /\
  (forall objects keepBoundingSphere,
     get_markerAverage (update objects keepBoundingSphere w1 s1).2 = 0%float /\
     get_opacityAverage (update objects keepBoundingSphere w1 s1).2 = 0%float).
Proof.
  cbn zeta. split; [reflexivity|]. split; [intros w'; repeat split|].
  split; [intros w'; repeat split|]. split; [reflexivity|]. split; [reflexivity|].
  intros objects keep. unfold update, get_markerAverage, get_opacityAverage.
  cbn [snd]. split.
  - cbn [markerAverage setAverages]. unfold calculateMarkerAverage.
    destruct (negb keep); [reflexivity|].
    unfold syncVisibility. destruct (negb (_ =? _)); reflexivity.
  - cbn [opacityAverage setAverages]. unfold calculateOpacityAverage.
    destruct (negb keep); [reflexivity|].
    unfold syncVisibility. destruct (negb (_ =? _)); reflexivity.
Qed.

End Clear.


(** ** The time budget of [commit] *)

(** A comparison with NaN is false. *)
Lemma ltb_nan_l (x : float) : PrimFloat.ltb PrimFloat.nan x = false.
Proof. rewrite FloatAxioms.ltb_spec. reflexivity. Qed.

Section Budget.
Context `{E : External}.

Lemma timeExceeded_nan clock reads start : timeExceeded clock reads start PrimFloat.nan = false.
Proof. apply ltb_nan_l. Qed.

(** A loop only stops early on a reading that is past the budget. *)
Lemma commitLoop_timedOut_reading rest_of op clock start maxTimeMs queued :
  forall i reads w s w' s',
  commitLoop rest_of op clock start maxTimeMs queued i reads w s = TimedOut w' s' ->
  exists k, timeExceeded clock k start maxTimeMs = true.
Proof.
  induction queued as [|o queued' IH]; intros i reads w s w' s'; cbn [commitLoop]; [done|].
  destruct (op o w _) as [w1 s1]. destruct (_ =? 0).
  - destruct (timeExceeded clock reads start maxTimeMs) eqn:Hk; [by eauto|]. apply IH.
  - apply IH.
Qed.

Lemma commit_incomplete_reading clock maxTimeMs w s w' s' :
  commit clock maxTimeMs w s = Some (false, w', s') ->
  exists k, timeExceeded clock k (clock 0%nat) maxTimeMs = true.
Proof.
  unfold commit.
  destruct (commitLoop setRemoveList _ _ _ _ _ _ _ _ _) as [w1 s1|i reads w1 s1] eqn:Hrem.
  - intros _. by eapply commitLoop_timedOut_reading.
  - destruct (commitLoop setAddList _ _ _ _ _ _ _ _ _) as [w2 s2|i2 reads2 w2 s2] eqn:Hadd.
    + intros _. by eapply commitLoop_timedOut_reading.
    + intros Hfin. by apply finishCommit_inv in Hfin as [? _].
Qed.

Lemma commit_incomplete_or_drained clock maxTimeMs w s :
  (exists w' s', commit clock maxTimeMs w s = Some (false, w', s') /\
                 (100 <= pending (commitQueue s))%nat) \/
  commit clock maxTimeMs w s = finishCommit (drainAll w s).1 (drainAll w s).2.
Proof.
  destruct (commit_cases clock maxTimeMs w s) as [(nr & Hnr & Hc)|[(na & Hna & Hsum & Hc)|Hc]].
  - left. eexists _, _. split; [exact Hc|]. unfold pending. lia.
  - left. eexists _, _. split; [exact Hc|]. unfold pending. lia.
  - by right.
Qed.

(** X1.  With fewer than 100 operations pending [commit] is never
    interrupted, whatever the clock and the budget: the time is only looked
    at on every 100th operation. *)
Theorem commit_small_queue_completes (clock : nat -> float) (maxTimeMs : float)
  (w : World) (s : Scene) :
  (pending (commitQueue s) < 100)%nat ->
  commit clock maxTimeMs w s = finishCommit (drainAll w s).1 (drainAll w s).2.
Proof.
  intros Hsmall.
  destruct (commit_incomplete_or_drained clock maxTimeMs w s) as [(w' & s' & _ & Hp)|Hc];
    [lia | exact Hc].
Qed.

(** X2.  When no reading of the clock is past the budget, one call of
    [commit] drains the whole queue and goes on to the sort. *)
Theorem commit_within_budget_completes (clock : nat -> float) (maxTimeMs : float)
  (w : World) (s : Scene) :
  withinBudget clock maxTimeMs ->
  commit clock maxTimeMs w s = finishCommit (drainAll w s).1 (drainAll w s).2.
Proof.
  intros Hbudget.
  destruct (commit_incomplete_or_drained clock maxTimeMs w s) as [(w' & s' & Hc & _)|Hc];
    [|exact Hc].
  apply commit_incomplete_reading in Hc as [k Hk]. by rewrite Hbudget in Hk.
Qed.

(** X3.  A budget that is not a number never interrupts: [now() - start >
    NaN] is false, so [commit(NaN)] always drains the whole queue. *)
Theorem commit_nan_budget_completes (clock : nat -> float) (w : World) (s : Scene) :
  commit clock PrimFloat.nan w s = finishCommit (drainAll w s).1 (drainAll w s).2.
Proof.
  destruct (commit_incomplete_or_drained clock PrimFloat.nan w s) as [(w' & s' & Hc & _)|Hc];
    [|exact Hc].
  apply commit_incomplete_reading in Hc as [k Hk]. by rewrite timeExceeded_nan in Hk.
Qed.

(** The first time check, with a full batch or more pending. *)
Lemma commit_first_check clock maxTimeMs w s :
  (100 <= pending (commitQueue s))%nat ->
  timeExceeded clock 1 (clock 0%nat) maxTimeMs = true ->
  exists nr na, (nr + na = 100)%nat /\
    (nr <= length (removeList (commitQueue s)))%nat /\
    (na <= length (addList (commitQueue s)))%nat /\
    (0 < na -> nr = length (removeList (commitQueue s)))%nat /\
    commit clock maxTimeMs w s
    = Some (false, (partialDrain nr na w s).1, (partialDrain nr na w s).2).
Proof.
  intros Hp Hclock. unfold pending in Hp.
  set (nR := length (removeList (commitQueue s))) in *.
  set (nA := length (addList (commitQueue s))) in *.
  pose proof (commitLoop_first_check setRemoveList remove (fun _ _ _ => eq_refl) remove_setQueue
                clock (clock 0%nat) maxTimeMs Hclock) as Hrem.
  pose proof (commitLoop_first_check setAddList add_ (fun _ _ _ => eq_refl) add__setQueue
                clock (clock 0%nat) maxTimeMs Hclock) as Hadd.
  destruct (decide (100 <= nR)%nat) as [Hbig|Hsmall].
  - exists 100%nat, 0%nat. repeat split; try lia.
    destruct (Hrem (removeList (commitQueue s)) 0 w s) as [H1 _]; [lia|].
    unfold commit. rewrite H1 by (fold nR; lia).
    change (Z.to_nat (100 - 0)) with 100%nat. by rewrite after_removes.
  - exists nR, (100 - nR)%nat. repeat split; try lia.
    destruct (Hrem (removeList (commitQueue s)) 0 w s) as [_ H2]; [lia|].
    destruct H2 as (w1 & s1 & Hloop); [fold nR; lia|].
    rewrite Z.add_0_l in Hloop. fold nR in Hloop.
    unfold commit. rewrite Hloop.
    apply (commitLoop_drained setRemoveList remove (fun _ _ _ => eq_refl) remove_setQueue) in Hloop;
      [|apply setRemoveList_id].
    destruct Hloop as (_ & Heq). rewrite after_removes in Heq. fold nR in Heq.
    assert (Hw1 : w1 = (partialDrain nR 0 w s).1) by (change w1 with (w1, s1).1; by rewrite Heq).
    assert (Hs1 : s1 = (partialDrain nR 0 w s).2) by (change s1 with (w1, s1).2; by rewrite Heq).
    assert (Hq1 : addList (commitQueue s1) = addList (commitQueue s)) by (by rewrite Hs1).
    rewrite Hq1.
    destruct (Hadd (addList (commitQueue s)) (Z.of_nat nR) w1 s1) as [H1 _]; [lia|].
    rewrite H1 by (fold nA; lia).
    replace (Z.to_nat (100 - Z.of_nat nR)) with (100 - nR)%nat by lia.
    by rewrite Hw1, Hs1, after_adds.
Qed.

(** X4.  With exactly 100 operations pending and the clock past the budget
    at the first check, [commit] returns [false] although it has drained
    the whole queue: nothing is pending, [needsCommit] is false, and the
    sort and the opacity average of the completion path have not run. *)
Theorem commit_exact_batch_returns_false (clock : nat -> float) (maxTimeMs : float)
  (w : World) (s : Scene) :
  pending (commitQueue s) = 100%nat ->
  timeExceeded clock 1 (clock 0%nat) maxTimeMs = true ->
  commit clock maxTimeMs w s = Some (false, (drainAll w s).1, (drainAll w s).2) /\
  needsCommit (drainAll w s).2 = false /\
  renderables (drainAll w s).2
    = renderables (runOps add_ (addList (commitQueue s))
                     (runOps remove (removeList (commitQueue s)) (w, s))).2 /\
  opacityAverage (drainAll w s).2 = opacityAverage s.
Proof.
  intros Hp Hclock.
  destruct (commit_first_check clock maxTimeMs w s) as (nr & na & Hsum & Hnr & Hna & _ & Hc);
    [lia | done |].
  unfold pending in Hp.
  assert (nr = length (removeList (commitQueue s))) as -> by lia.
  assert (na = length (addList (commitQueue s))) as -> by lia.
  rewrite partialDrain_all in Hc. split; [exact Hc|].
  split; [unfold needsCommit; by destruct (drainAll_inv w s) as [_ ->]|].
  split; [reflexivity|].
  rewrite <- partialDrain_all. apply partialDrain_inv.
Qed.

(** X5.  [commit] on an empty queue reads no clock after [start] and runs
    the completion path on the scene as it is: the live list is sorted and
    the opacity average recomputed, nothing else changes. *)
Theorem commit_empty_queue (clock : nat -> float) (maxTimeMs : float)
  (w : World) (s : Scene) :
  isEmpty (commitQueue s) = true ->
  commit clock maxTimeMs w s = finishCommit w s /\
  forall b w' s', commit clock maxTimeMs w s = Some (b, w', s') ->
    b = true /\ w' = w /\
    renderables s' ≡ₚ renderables s /\
    renderableMap s' = renderableMap s /\
    primitives s' = primitives s /\ volumes s' = volumes s /\
    boundingSphereDirty s' = boundingSphereDirty s /\
    boundingSphereVisibleDirty s' = boundingSphereVisibleDirty s /\
    markerAverage s' = markerAverage s /\
    opacityAverage s' = calculateOpacityAverage w s.
Proof.
  intros Hempty. unfold isEmpty in Hempty. apply andb_true_iff in Hempty as [Hr Ha].
  apply bool_decide_eq_true in Hr, Ha.
  assert (Hc : commit clock maxTimeMs w s = finishCommit w s).
  { unfold commit. rewrite Hr. cbn [commitLoop]. rewrite Ha. reflexivity. }
  split; [exact Hc|]. intros b w' s'. rewrite Hc. unfold finishCommit.
  destruct (arraySort _ _) as [sorted|] eqn:Hsort; [|done]. cbn. intros [= <- <- <-].
  cbn. repeat split. by apply arraySort_perm in Hsort.
Qed.

End Budget.

(** ** The registry after [commit]; the sphere caches; the comparator *)

Section RegistryMap.
Context `{E : External}.
Local Set Warnings "-clear-no-such-hyp".

Lemma registered_remove o w s : registered (remove o w s).2 = registered s ∖ {[o]}.
Proof.
  unfold registered, remove. destruct (renderableMap s !! o) as [r|] eqn:Hlook; cbn.
  - apply dom_delete_L.
  - apply not_elem_of_dom in Hlook. set_solver.
Qed.

Lemma registered_add_ o w s : registered (add_ o w s).2 = registered s ∪ {[o]}.
Proof.
  unfold registered, add_, add. destruct (renderableMap s !! o) as [r|] eqn:Hlook.
  - cbn. assert (o ∈ dom (renderableMap s)) by (apply elem_of_dom; eauto). set_solver.
  - destruct (createRenderable w o) as [r w']. cbn. rewrite dom_insert_L. set_solver.
Qed.

Lemma registered_runOps_remove os : forall w s,
  registered (runOps remove os (w, s)).2 = registered s ∖ list_to_set os.
Proof.
  induction os as [|o os IH]; intros w s.
  - cbn. set_solver.
  - change (runOps remove (o :: os) (w, s)) with (runOps remove os (remove o w s)).
    destruct (remove o w s) as [w1 s1] eqn:Hrem. rewrite IH.
    pose proof (registered_remove o w s) as H1. rewrite Hrem in H1. cbn [snd] in H1.
    rewrite H1. cbn. set_solver.
Qed.

Lemma registered_runOps_add os : forall w s,
  registered (runOps add_ os (w, s)).2 = registered s ∪ list_to_set os.
Proof.
  induction os as [|o os IH]; intros w s.
  - cbn. set_solver.
  - change (runOps add_ (o :: os) (w, s)) with (runOps add_ os (add_ o w s)).
    destruct (add_ o w s) as [w1 s1] eqn:Hadd. rewrite IH.
    pose proof (registered_add_ o w s) as H1. rewrite Hadd in H1. cbn [snd] in H1.
    rewrite H1. cbn. set_solver.
Qed.

Lemma has_registered o s : has o s = bool_decide (o ∈ registered s).
Proof.
  unfold has, registered. apply bool_decide_ext. symmetry. apply elem_of_dom.
Qed.

(** X6.  After a [commit] that completes, the registered objects are those
    registered before, without the queued removals, with the queued
    additions: [has] answers true for every queued addition, false for
    every queued removal that is not also a queued addition, and as before
    for any other object. *)
Theorem commit_registers_queue (clock : nat -> float) (maxTimeMs : float)
  (w w' : World) (s s' : Scene) :
  commit clock maxTimeMs w s = Some (true, w', s') ->
  registered s'
    = (registered s ∖ list_to_set (removeList (commitQueue s)))
      ∪ list_to_set (addList (commitQueue s)) /\
  forall o, has o s' = if bool_decide (o ∈ addList (commitQueue s)) then true
                       else if bool_decide (o ∈ removeList (commitQueue s)) then false
                       else has o s.
Proof.
  intros Hcommit.
  assert (Hdom : registered s'
    = (registered s ∖ list_to_set (removeList (commitQueue s)))
      ∪ list_to_set (addList (commitQueue s))).
  { destruct (commit_cases clock maxTimeMs w s) as [(nr & _ & Hc)|[(na & _ & _ & Hc)|Hc]];
      rewrite Hc in Hcommit; try discriminate.
    apply finishCommit_inv in Hcommit as (_ & _ & _ & _ & _ & Hmap & _).
    unfold registered at 1. rewrite Hmap. unfold drainAll. cbn [snd setQueue renderableMap].
    fold (registered (runOps add_ (addList (commitQueue s))
                        (runOps remove (removeList (commitQueue s)) (w, s))).2).
    destruct (runOps remove _ (w, s)) as [w1 s1] eqn:Hrem.
    rewrite registered_runOps_add.
    pose proof (registered_runOps_remove (removeList (commitQueue s)) w s) as H1.
    rewrite Hrem in H1. cbn [snd] in H1. by rewrite H1. }
  split; [exact Hdom|]. intros o. rewrite !has_registered, Hdom.
  repeat case_bool_decide; set_solver.
Qed.

(** X7.  Lookups in the registry: [add] registers its object and [remove]
    unregisters it, both leave every other object as it was; removing an
    object that is not registered changes nothing at all; and adding an
    unregistered object and removing it again gives the old map. *)
Theorem registry_lookups (o : GraphicsRenderObject) (w : World) (s : Scene) :
  has o (add o w s).2 = true /\
  has o (remove o w s).2 = false /\
  (forall o', o' <> o -> has o' (add o w s).2 = has o' s /\ has o' (remove o w s).2 = has o' s) /\
  (has o s = false -> remove o w s = (w, s)) /\
  (has o s = false ->
     forall w', renderableMap (remove o w' (add o w s).2).2 = renderableMap s).
Proof.
  assert (Hadd : registered (add o w s).2 = registered s ∪ {[o]}).
  { pose proof (registered_add_ o w s) as H. unfold add_ in H.
    by destruct (add o w s) as [[r w1] s1]. }
  pose proof (registered_remove o w s) as Hrem.
  split; [rewrite has_registered, Hadd; apply bool_decide_eq_true; set_solver|].
  split; [rewrite has_registered, Hrem; apply bool_decide_eq_false; set_solver|].
  split.
  { intros o' Hne. rewrite !has_registered, Hadd, Hrem.
    split; apply bool_decide_ext; set_solver. }
  split.
  { unfold has, remove. intros Hno. apply bool_decide_eq_false in Hno.
    destruct (renderableMap s !! o) as [r|]; [|done]. exfalso. apply Hno. eauto. }
  unfold has. intros Hno w'. apply bool_decide_eq_false in Hno.
  assert (Hnone : renderableMap s !! o = None).
  { destruct (renderableMap s !! o) as [r|] eqn:H; [|done]. exfalso. apply Hno. eauto. }
  unfold add. rewrite Hnone. destruct (createRenderable w o) as [r w1]. cbn [snd].
  unfold remove. cbn [renderableMap]. rewrite lookup_insert_eq. cbn [snd renderableMap].
  rewrite delete_insert_eq. by apply delete_id.
Qed.

Lemma remove_untouchedOrDirty o w s : untouchedOrDirty s (remove o w s).2.
Proof. unfold remove. destruct (renderableMap s !! o); [by right | by left]. Qed.

Lemma add__untouchedOrDirty o w s : untouchedOrDirty s (add_ o w s).2.
Proof.
  unfold add_, add. destruct (renderableMap s !! o); [by left|].
  destruct (createRenderable w o). by right.
Qed.

Lemma remove_keeps_dirty o w s :
  (boundingSphereDirty s = true -> boundingSphereDirty (remove o w s).2 = true) /\
  (boundingSphereVisibleDirty s = true -> boundingSphereVisibleDirty (remove o w s).2 = true).
Proof. unfold remove. by destruct (renderableMap s !! o). Qed.

Lemma add__keeps_dirty o w s :
  (boundingSphereDirty s = true -> boundingSphereDirty (add_ o w s).2 = true) /\
  (boundingSphereVisibleDirty s = true -> boundingSphereVisibleDirty (add_ o w s).2 = true).
Proof.
  unfold add_, add. destruct (renderableMap s !! o); [done|].
  by destruct (createRenderable w o).
Qed.

Lemma runOps_untouchedOrDirty op os :
  (forall o w s, untouchedOrDirty s (op o w s).2) ->
  (forall o w s,
     (boundingSphereDirty s = true -> boundingSphereDirty (op o w s).2 = true) /\
     (boundingSphereVisibleDirty s = true -> boundingSphereVisibleDirty (op o w s).2 = true)) ->
  forall w s,
    untouchedOrDirty s (runOps op os (w, s)).2 /\
    (boundingSphereDirty s = true -> boundingSphereDirty (runOps op os (w, s)).2 = true) /\
    (boundingSphereVisibleDirty s = true ->
       boundingSphereVisibleDirty (runOps op os (w, s)).2 = true).
Proof.
  intros Hop Hkeep. induction os as [|o os IH]; intros w s.
  - cbn. split; [by left | done].
  - change (runOps op (o :: os) (w, s)) with (runOps op os (op o w s)).
    pose proof (Hkeep o w s) as [Hd1 Hv1]. pose proof (Hop o w s) as Hstep.
    destruct (op o w s) as [w1 s1]. cbn [snd] in Hd1, Hv1, Hstep.
    destruct (IH w1 s1) as (Hu & Hd & Hv). split; [|split; auto].
    destruct Hstep as [->|[Hd0 Hv0]]; [exact Hu|]. right. auto.
Qed.

(** X8.  [commit] never validates a sphere cache, and it invalidates both
    whenever it changes the live set: afterwards either both dirty flags
    are set, or map, partitions and flags are as before and the live list
    holds the same drawables (re-ordered by the sort at most). *)
Theorem commit_invalidates_spheres (clock : nat -> float) (maxTimeMs : float)
  (b : bool) (w w' : World) (s s' : Scene) :
  commit clock maxTimeMs w s = Some (b, w', s') ->
  (boundingSphereDirty s = true -> boundingSphereDirty s' = true) /\
  (boundingSphereVisibleDirty s = true -> boundingSphereVisibleDirty s' = true) /\
  (boundingSphereDirty s' = true /\ boundingSphereVisibleDirty s' = true \/
   renderableMap s' = renderableMap s /\ primitives s' = primitives s /\
   volumes s' = volumes s /\ renderables s' ≡ₚ renderables s /\
   boundingSphereDirty s' = boundingSphereDirty s /\
   boundingSphereVisibleDirty s' = boundingSphereVisibleDirty s).
Proof.
  intros Hcommit.
  assert (Hpd : forall nr na,
    let s1 := (partialDrain nr na w s).2 in
    (boundingSphereDirty s = true -> boundingSphereDirty s1 = true) /\
    (boundingSphereVisibleDirty s = true -> boundingSphereVisibleDirty s1 = true) /\
    (boundingSphereDirty s1 = true /\ boundingSphereVisibleDirty s1 = true \/
     renderableMap s1 = renderableMap s /\ primitives s1 = primitives s /\
     volumes s1 = volumes s /\ renderables s1 = renderables s /\
     boundingSphereDirty s1 = boundingSphereDirty s /\
     boundingSphereVisibleDirty s1 = boundingSphereVisibleDirty s)).
  { intros nr na. unfold partialDrain. cbv zeta.
    cbn [snd setQueue boundingSphereDirty boundingSphereVisibleDirty renderableMap
         primitives volumes renderables].
    destruct (runOps_untouchedOrDirty remove (take nr (removeList (commitQueue s)))
                remove_untouchedOrDirty remove_keeps_dirty w s) as (Hu1 & Hd1 & Hv1).
    destruct (runOps remove _ (w, s)) as [w1 s1]. cbn [snd] in Hu1, Hd1, Hv1.
    destruct (runOps_untouchedOrDirty add_ (take na (addList (commitQueue s)))
                add__untouchedOrDirty add__keeps_dirty w1 s1) as (Hu2 & Hd2 & Hv2).
    destruct (runOps add_ _ (w1, s1)) as [w2 s2]. cbn [snd] in Hu2, Hd2, Hv2 |- *.
    split; [auto|]. split; [auto|].
    destruct Hu2 as [->|[? ?]]; [|by left].
    destruct Hu1 as [->|[? ?]]; [by right | by left]. }
  destruct (commit_cases clock maxTimeMs w s) as [(nr & _ & Hc)|[(na & _ & _ & Hc)|Hc]];
    rewrite Hc in Hcommit.
  - injection Hcommit as <- <- <-. destruct (Hpd nr 0%nat) as (Hd & Hv & Hcase).
    cbv zeta in Hd, Hv, Hcase. split; [done|]. split; [done|].
    destruct Hcase as [?|(? & ? & ? & Hl & ? & ?)]; [by left|].
    right. repeat split; try done.
    match type of Hl with ?l = _ => change (l ≡ₚ renderables s) end. by rewrite Hl.
  - injection Hcommit as <- <- <-.
    destruct (Hpd (length (removeList (commitQueue s))) na) as (Hd & Hv & Hcase).
    cbv zeta in Hd, Hv, Hcase. split; [done|]. split; [done|].
    destruct Hcase as [?|(? & ? & ? & Hl & ? & ?)]; [by left|].
    right. repeat split; try done.
    match type of Hl with ?l = _ => change (l ≡ₚ renderables s) end. by rewrite Hl.
  - rewrite <- partialDrain_all in Hcommit.
    destruct (Hpd (length (removeList (commitQueue s))) (length (addList (commitQueue s))))
      as (Hd & Hv & Hcase).
    cbv zeta in Hd, Hv, Hcase. unfold finishCommit in Hcommit.
    destruct (arraySort _ _) as [sorted|] eqn:Hsort; [|done].
    cbn in Hcommit. injection Hcommit as <- <- <-. cbn.
    split; [done|]. split; [done|].
    destruct Hcase as [?|(? & ? & ? & Hl & ? & ?)]; [by left|]. right.
    repeat split; try done. rewrite <- Hl. by apply arraySort_perm in Hsort.
Qed.

(** X9.  The sort of a complete [commit] re-orders the live list and
    nothing else: the list holds the same drawables as after the last
    registry operation, and the two partitions keep their own order. *)
Theorem commit_sort_permutes (clock : nat -> float) (maxTimeMs : float)
  (w w' : World) (s s' : Scene) :
  commit clock maxTimeMs w s = Some (true, w', s') ->
  renderables s' ≡ₚ renderables (drainAll w s).2 /\
  get_count s' = get_count (drainAll w s).2 /\
  primitives s' = primitives (drainAll w s).2 /\
  volumes s' = volumes (drainAll w s).2 /\
  renderableMap s' = renderableMap (drainAll w s).2.
Proof.
  intros Hcommit.
  destruct (commit_cases clock maxTimeMs w s) as [(nr & _ & Hc)|[(na & _ & _ & Hc)|Hc]];
    rewrite Hc in Hcommit; try discriminate.
  unfold finishCommit in Hcommit.
  destruct (arraySort _ _) as [sorted|] eqn:Hsort; [|done].
  cbn in Hcommit. injection Hcommit as <- <-. cbn.
  apply arraySort_perm in Hsort. repeat split; [done|].
  unfold get_count. cbn. by rewrite Hsort.
Qed.

(** The comparator throws exactly when the first drawable has no
    colorWboit program and one of the two has no colorBlended program. *)
Lemma renderableSort_None w a b :
  renderableSort w a b = None <->
  getProgram w a colorWboit = None /\
  (getProgram w a colorBlended = None \/ getProgram w b colorBlended = None).
Proof.
  unfold renderableSort.
  destruct (getProgram w a colorBlended) as [pa|], (getProgram w b colorBlended) as [pb|],
    (getProgram w a colorWboit) as [pw|]; cbn; repeat destruct (negb _); naive_solver.
Qed.

(** X11.  [renderableSort] throws exactly when its first argument has no
    colorWboit program and one of the two arguments has no colorBlended
    program.  A second argument without any program does not make it throw
    as long as the first has a colorWboit program. *)
Theorem renderableSort_throws_iff (w : World) (a b : GraphicsRenderable) :
  (renderableSort w a b = None <->
   getProgram w a colorWboit = None /\
   (getProgram w a colorBlended = None \/ getProgram w b colorBlended = None)) /\
  (is_Some (getProgram w a colorWboit) -> is_Some (renderableSort w a b)) /\
  (is_Some (getProgram w a colorBlended) -> is_Some (getProgram w b colorBlended) ->
   is_Some (renderableSort w a b)).
Proof.
  split; [apply renderableSort_None|]. split.
  - intros [p Hp]. destruct (renderableSort w a b) eqn:H; [eauto|].
    apply renderableSort_None in H as [H _]. congruence.
  - intros [p Hp] [q Hq]. destruct (renderableSort w a b) eqn:H; [eauto|].
    apply renderableSort_None in H as [_ [H|H]]; congruence.
Qed.

End RegistryMap.

Section SortFails.
Context {A : Type} (cmp : A -> A -> option Z).

Lemma insertSorted_None x l :
  insertSorted cmp x l = None -> exists y, y ∈ l /\ cmp x y = None.
Proof.
  induction l as [|y l IH]; cbn; [done|].
  destruct (cmp x y) as [c|] eqn:Hc; [|intros _; exists y; split; [by left | done]].
  cbn. destruct (c <=? 0); [done|].
  destruct (insertSorted cmp x l) as [r|]; [done|]. intros _.
  destruct IH as (z & Hz & Hcz); [done|]. exists z. split; [by right | done].
Qed.

(** The sort throws only on a comparison the comparator throws on, and
    never on fewer than two elements. *)
Lemma arraySort_None l :
  arraySort cmp l = None ->
  (2 <= length l)%nat /\ exists a b, a ∈ l /\ b ∈ l /\ cmp a b = None.
Proof.
  induction l as [|x l IH]; cbn; [done|].
  destruct (arraySort cmp l) as [r|] eqn:Hr; cbn.
  - intros Hins. apply insertSorted_None in Hins as (y & Hy & Hc).
    apply arraySort_perm in Hr. rewrite Hr in Hy. split.
    + destruct l; [by apply elem_of_nil in Hy | cbn; lia].
    + exists x, y. split; [by left|]. split; [by right | done].
  - intros _. destruct IH as (Hlen & a & b & Ha & Hb & Hc); [done|]. split; [lia|].
    exists a, b. split; [by right|]. split; [by right | done].
Qed.

End SortFails.

Section Throws.
Context `{E : External}.

(** X12.  [commit] throws only from the sort, after the queue has been
    drained, and only if at least two drawables are live, one of them
    without a colorWboit program and one without a colorBlended program.
    So it never throws with fewer than two live drawables, nor where all
    have a colorBlended program, nor where all have a colorWboit program. *)
Theorem commit_throws_only_if (clock : nat -> float) (maxTimeMs : float)
  (w : World) (s : Scene) :
  commit clock maxTimeMs w s = None ->
  let live := renderables (drainAll w s).2 in
  let w' := (drainAll w s).1 in
  (2 <= length live)%nat /\
  (exists a, a ∈ live /\ getProgram w' a colorWboit = None) /\
  (exists b, b ∈ live /\ getProgram w' b colorBlended = None).
Proof.
  intros Hcommit. cbv zeta.
  destruct (commit_cases clock maxTimeMs w s) as [(nr & _ & Hc)|[(na & _ & _ & Hc)|Hc]];
    rewrite Hc in Hcommit; try discriminate.
  unfold finishCommit in Hcommit.
  destruct (arraySort _ _) as [sorted|] eqn:Hsort; [done|].
  apply arraySort_None in Hsort as (Hlen & a & b & Ha & Hb & Hcmp).
  apply renderableSort_None in Hcmp as [Hw Hbl]. split; [done|].
  split; [by exists a|]. destruct Hbl; [by exists a | by exists b].
Qed.

End Throws.

(** ** The bounding spheres *)

Section Spheres.
Context `{E : External}.
Local Set Warnings "-clear-no-such-hyp".

Lemma fold_left_qualifying (f : BoundaryHelper -> Sphere3D -> BoundaryHelper) w onlyVisible rs :
  forall h,
  fold_left (fun h r => if skipped w onlyVisible r then h
                        else f h (v_boundingSphere (values w r))) rs h
  = fold_left f (qualifyingSpheres w rs onlyVisible) h.
Proof.
  unfold qualifyingSpheres. induction rs as [|r rs IH]; intros h; [reflexivity|].
  cbn [fold_left List.filter]. destruct (skipped w onlyVisible r); cbn; apply IH.
Qed.

(** X14.  [calculateBoundingSphere] is the two passes of the boundary helper
    over the same list of spheres: those of the drawables, in live order,
    that are visible (when only the visible count) and whose radius is not
    0, -0 or NaN.  When no drawable qualifies the result is the empty
    boundary, whatever the drawables are. *)
Theorem calculateBoundingSphere_two_passes (w : World) (rs : list GraphicsRenderable)
  (onlyVisible : bool) :
  calculateBoundingSphere w rs onlyVisible = boundaryOf (qualifyingSpheres w rs onlyVisible) /\
  ((forall r, r ∈ rs -> skipped w onlyVisible r = true) ->
   calculateBoundingSphere w rs onlyVisible = emptyBoundary) /\
  (forall r, skipped w onlyVisible r = true <->
     onlyVisible = true /\ visible (state w r) = false \/
     PrimFloat.eqb (radius (v_boundingSphere (values w r))) 0%float = true \/
     PrimFloat.is_nan (radius (v_boundingSphere (values w r))) = true).
Proof.
  assert (Heq : calculateBoundingSphere w rs onlyVisible
                = boundaryOf (qualifyingSpheres w rs onlyVisible)).
  { unfold calculateBoundingSphere, boundaryOf. by rewrite !fold_left_qualifying. }
  split; [exact Heq|]. split.
  - intros Hall. rewrite Heq. unfold qualifyingSpheres.
    assert (Hnil : forall l, (forall r, r ∈ l -> skipped w onlyVisible r = true) ->
                   List.filter (fun r => negb (skipped w onlyVisible r)) l = []).
    { induction l as [|r l IH]; intros Hl; [reflexivity|]. cbn.
      rewrite (Hl r) by (by left). cbn. apply IH. intros r' Hr'. apply Hl. by right. }
    by rewrite (Hnil rs Hall).
  - intros r. unfold skipped, truthy.
    destruct onlyVisible, (visible (state w r)),
      (PrimFloat.eqb (radius (v_boundingSphere (values w r))) 0),
      (PrimFloat.is_nan (radius (v_boundingSphere (values w r)))); cbn; naive_solver.
Qed.

(** X15.  A sphere getter recomputes only when its flag is set: a second
    read returns the sphere of the first and changes nothing, whatever
    happened to the published values in between.  [update] with
    [keepBoundingSphere] does not set the flag of the full sphere, so the
    sphere read after it is still the old one; without it the next read
    recomputes over the live list in the world of that read. *)
Theorem boundingSphere_is_cached (w w' : World) (s : Scene) :
  let sphere := (get_boundingSphere w s).1 in
  let s1 := (get_boundingSphere w s).2 in
  get_boundingSphere w' s1 = (sphere, s1) /\
  (forall objects w1 w2,
     (get_boundingSphere w2 (update objects true w1 s1).2).1 = sphere) /\
  (forall objects w1 w2,
     (get_boundingSphere w2 (update objects false w1 s1).2).1
     = calculateBoundingSphere w2 (renderables s) false) /\
  (let visibleSphere := (get_boundingSphereVisible w s).1 in
   let s2 := (get_boundingSphereVisible w s).2 in
   get_boundingSphereVisible w' s2 = (visibleSphere, s2)).
Proof.
  cbv zeta. unfold get_boundingSphere, get_boundingSphereVisible.
  destruct (boundingSphereDirty s) eqn:Hd, (boundingSphereVisibleDirty s) eqn:Hv;
    cbn [fst snd boundingSphereDirty boundingSphereVisibleDirty boundingSphere
         boundingSphereVisible];
    rewrite ?Hd, ?Hv; (split; [reflexivity|]); (split; [|split; [|reflexivity]]);
    intros objects w1 w2; unfold update; cbn [snd];
    try reflexivity;
    unfold syncVisibility; cbn; try rewrite Hd; destruct (negb (_ =? _)); cbn;
    rewrite ?Hd; reflexivity.
Qed.

End Spheres.

(** ** The fingerprint, [update] and [clear] *)

Section Fingerprint.
Context `{E : External}.
Local Set Warnings "-clear-no-such-hyp".

Lemma computeVisibleHash_fingerprint w s : computeVisibleHash w s = fingerprint (visibleIds w s).
Proof.
  unfold computeVisibleHash, fingerprint, visibleIds. cbv zeta.
  enough (forall h, fold_left (fun hash r => if negb (visible (state w r)) then hash
                                  else toInt32 (31 * hash + r_id r)) (renderables s) h
                = fold_left (fun hash i => toInt32 (31 * hash + i))
                    (map r_id (List.filter (fun r => visible (state w r)) (renderables s))) h)
    as -> by reflexivity.
  induction (renderables s) as [|r l IH]; intros h; [reflexivity|].
  cbn [fold_left List.filter]. destruct (visible (state w r)); cbn; apply IH.
Qed.

(** X16.  The fingerprint is a function of the ids of the visible drawables
    in live order and never the sentinel -1.  So [syncVisibility] reports
    no change whenever those ids are the ones the stored fingerprint was
    taken from, also when drawables that are not visible were added,
    removed or republished in between. *)
Theorem syncVisibility_sees_visible_ids_only (w w0 : World) (s s0 : Scene) :
  visibleHash s = computeVisibleHash w0 s0 ->
  visibleIds w s = visibleIds w0 s0 ->
  computeVisibleHash w s = fingerprint (visibleIds w s) /\
  computeVisibleHash w s <> -1 /\
  syncVisibility w s = (false, s).
Proof.
  intros Hstored Hids. split; [apply computeVisibleHash_fingerprint|].
  split; [apply computeVisibleHash_not_sentinel|].
  unfold syncVisibility. rewrite Hstored, !computeVisibleHash_fingerprint, Hids, Z.eqb_refl.
  reflexivity.
Qed.

(** X17.  Only the getter of the visible-only sphere writes the stored
    fingerprint: [syncVisibility], [update], [clear], the getter of the full
    sphere and [commit] leave it as it is.  A scene on which that getter
    has not found its flag set yet still has the initial -1, and every
    [syncVisibility] on it reports a change. *)
Theorem visibleHash_written_by_getter_only (w : World) (s : Scene) :
  visibleHash (syncVisibility w s).2 = visibleHash s /\
  (forall objects keep, visibleHash (update objects keep w s).2 = visibleHash s) /\
  visibleHash (clear w s).2 = visibleHash s /\
  visibleHash (get_boundingSphere w s).2 = visibleHash s /\
  (forall clock maxTimeMs b w' s',
     commit clock maxTimeMs w s = Some (b, w', s') -> visibleHash s' = visibleHash s) /\
  (visibleHash s = -1 -> (syncVisibility w s).1 = true).
Proof.
  split; [apply syncVisibility_scene|]. split.
  { intros objects keep. unfold update. cbn [snd visibleHash setAverages].
    destruct (negb keep); [reflexivity|]. apply syncVisibility_scene. }
  split; [reflexivity|]. split.
  { unfold get_boundingSphere. by destruct (boundingSphereDirty s). }
  split.
  { intros clock maxTimeMs b w' s' Hcommit.
    destruct (commit_cases clock maxTimeMs w s) as [(nr & _ & Hc)|[(na & _ & _ & Hc)|Hc]];
      rewrite Hc in Hcommit.
    - injection Hcommit as <- <- <-.
      apply (partialDrain_inv nr 0 w s).
    - injection Hcommit as <- <- <-.
      apply (partialDrain_inv (length (removeList (commitQueue s))) na w s).
    - rewrite <- partialDrain_all in Hcommit. unfold finishCommit in Hcommit.
      destruct (arraySort _ _) as [sorted|]; [|done]. cbn in Hcommit.
      injection Hcommit as <- <- <-. cbn [visibleHash setAverages setRenderables].
      apply (partialDrain_inv _ _ w s). }
  intros Hnew. rewrite syncVisibility_changed, Hnew.
  pose proof (computeVisibleHash_not_sentinel w s) as Hne. apply Z.eqb_neq in Hne.
  by rewrite Hne.
Qed.

(** X18.  [update] republishes the drawables of the registered objects of
    its list, in list order, and skips the others; without a list it
    republishes every live drawable.  It never changes the registry, the
    live list, the partitions or the queue. *)
Theorem update_skips_unregistered (objects : list GraphicsRenderObject) (keep : bool)
  (w : World) (s : Scene) :
  (update (Some objects) keep w s).1 = fold_left renderable_update (registeredOf s objects) w /\
  ((forall o, o ∈ objects -> has o s = false) -> (update (Some objects) keep w s).1 = w) /\
  (update None keep w s).1 = fold_left renderable_update (renderables s) w /\
  (forall objs, let s' := (update objs keep w s).2 in
     renderableMap s' = renderableMap s /\ renderables s' = renderables s /\
     primitives s' = primitives s /\ volumes s' = volumes s /\
     commitQueue s' = commitQueue s).
Proof.
  assert (Hfold : forall objs w0,
    fold_left (fun w o => match renderableMap s !! o with
                          | Some r => renderable_update w r
                          | None => w
                          end) objs w0
    = fold_left renderable_update (registeredOf s objs) w0).
  { unfold registeredOf. induction objs as [|o objs IH]; intros w0; [reflexivity|].
    cbn. destruct (renderableMap s !! o) as [r|] eqn:Ho; cbn; apply IH. }
  split; [apply Hfold|]. split.
  { intros Hnone. unfold update. cbn [fst]. rewrite Hfold.
    replace (registeredOf s objects) with (@nil GraphicsRenderable); [reflexivity|].
    symmetry. unfold registeredOf. clear Hfold.
    induction objects as [|o objs IH]; [reflexivity|]. cbn.
    assert (Ho : renderableMap s !! o = None).
    { specialize (Hnone o (ltac:(by left))). unfold has in Hnone.
      apply bool_decide_eq_false in Hnone.
      destruct (renderableMap s !! o) as [r|]; [|done]. exfalso. apply Hnone. eauto. }
    rewrite Ho. apply IH. intros o' Ho'. apply Hnone. by right. }
  split; [reflexivity|].
  intros objs. cbv zeta. unfold update. cbn [snd]. destruct (negb keep); [done|].
  unfold syncVisibility. by destruct (negb (_ =? _)).
Qed.

Lemma runOps_remove_unregistered os : forall w s,
  (forall o, o ∈ os -> renderableMap s !! o = None) ->
  runOps remove os (w, s) = (w, s).
Proof.
  induction os as [|o os IH]; intros w s Hnone; [reflexivity|].
  change (runOps remove (o :: os) (w, s)) with (runOps remove os (remove o w s)).
  unfold remove at 2. rewrite (Hnone o) by (by left). apply IH.
  intros o' Ho'. apply Hnone. by right.
Qed.

(** X19.  [clear] disposes every live drawable, in live order, and forgets
    the registry, but not the queue: what was queued stays queued, and
    [needsCommit] answers as before.  On the cleared scene no object is
    registered, any removal is a no-op, and a second [clear] disposes
    nothing. *)
Theorem clear_keeps_queue (w : World) (s : Scene) :
  (clear w s).1 = fold_left dispose (renderables s) w /\
  commitQueue (clear w s).2 = commitQueue s /\
  needsCommit (clear w s).2 = needsCommit s /\
  (forall o, has o (clear w s).2 = false) /\
  (forall os w', runOps remove os (w', (clear w s).2) = (w', (clear w s).2)) /\
  (forall w', clear w' (clear w s).2 = (w', (clear w s).2)).
Proof.
  split; [reflexivity|]. split; [reflexivity|]. split; [reflexivity|].
  split.
  { intros o. unfold has. apply bool_decide_eq_false. cbn. rewrite lookup_empty.
    by intros [? ?]. }
  split; [|reflexivity].
  intros os w'. apply runOps_remove_unregistered. intros o _. cbn. apply lookup_empty.
Qed.

End Fingerprint.

(** ** The partitions *)

Section Partition.
Context `{E : External}.
Hypothesis removesOne : removesOneOccurrence.

Lemma arraySetRemove_absent xs x : x ∉ xs -> arraySetRemove xs x = xs.
Proof. apply removesOne. Qed.

Lemma arraySetRemove_present xs x : x ∈ xs -> xs ≡ₚ x :: arraySetRemove xs x.
Proof. apply removesOne. Qed.

Lemma remove_partitioned o w s : partitioned s -> partitioned (remove o w s).2.
Proof.
  intros [Hnd Hperm]. unfold remove. destruct (renderableMap s !! o) as [r|]; [|done].
  unfold partitioned. cbn [snd renderables primitives volumes].
  destruct (decide (r ∈ renderables s)) as [Hin|Hout].
  - pose proof (arraySetRemove_present _ _ Hin) as HR.
    assert (Hnd' : NoDup (r :: arraySetRemove (renderables s) r)) by (by rewrite <- HR).
    apply NoDup_cons in Hnd' as [_ Hnd']. split; [exact Hnd'|].
    assert (Hpv : NoDup (primitives s ++ volumes s)) by (by rewrite <- Hperm).
    apply NoDup_app in Hpv as (_ & Hdisj & _).
    assert (Hin' : r ∈ primitives s ++ volumes s) by (by rewrite <- Hperm).
    apply (Permutation_cons_inv (a := r)). rewrite <- HR, Hperm.
    apply elem_of_app in Hin' as [Hp|Hv].
    + rewrite (arraySetRemove_absent (volumes s) r) by (by apply Hdisj).
      by rewrite (arraySetRemove_present _ _ Hp) at 1.
    + assert (r ∉ primitives s) by (intros Hp; by apply (Hdisj r Hp)).
      rewrite (arraySetRemove_absent (primitives s) r) by done.
      rewrite (arraySetRemove_present _ _ Hv) at 1. by rewrite Permutation_middle.
  - assert (Hout' : r ∉ primitives s ++ volumes s) by (by rewrite <- Hperm).
    apply not_elem_of_app in Hout' as [Hp Hv].
    by rewrite !arraySetRemove_absent.
Qed.

Lemma runOps_remove_partitioned os : forall w s,
  partitioned s -> partitioned (runOps remove os (w, s)).2.
Proof.
  induction os as [|o os IH]; intros w s Hs; [done|].
  change (runOps remove (o :: os) (w, s)) with (runOps remove os (remove o w s)).
  pose proof (remove_partitioned o w s Hs) as H1.
  destruct (remove o w s) as [w1 s1]. by apply IH.
Qed.

Lemma add__split o w s :
  renderables s ≡ₚ primitives s ++ volumes s ->
  renderables (add_ o w s).2 ≡ₚ primitives (add_ o w s).2 ++ volumes (add_ o w s).2.
Proof.
  intros Hperm. unfold add_, add. destruct (renderableMap s !! o); [done|].
  destruct (createRenderable w o) as [r w']. cbn [snd renderables primitives volumes].
  destruct (String.eqb _ _).
  - by rewrite Hperm, app_assoc.
  - rewrite Hperm, <- !app_assoc. apply Permutation_app_head, Permutation_app_comm.
Qed.

Lemma runOps_add_split os : forall w s,
  renderables s ≡ₚ primitives s ++ volumes s ->
  let s' := (runOps add_ os (w, s)).2 in
  renderables s' ≡ₚ primitives s' ++ volumes s'.
Proof.
  induction os as [|o os IH]; intros w s Hs; [done|].
  change (runOps add_ (o :: os) (w, s)) with (runOps add_ os (add_ o w s)).
  pose proof (add__split o w s Hs) as H1.
  destruct (add_ o w s) as [w1 s1]. by apply IH.
Qed.

Lemma partialDrain_split nr na w s :
  partitioned s ->
  let s' := (partialDrain nr na w s).2 in
  renderables s' ≡ₚ primitives s' ++ volumes s'.
Proof.
  intros Hs. unfold partialDrain. cbv zeta. cbn [snd setQueue renderables primitives volumes].
  pose proof (runOps_remove_partitioned (take nr (removeList (commitQueue s))) w s Hs) as [_ H1].
  destruct (runOps remove _ (w, s)) as [w1 s1].
  by apply runOps_add_split.
Qed.

(** X13.  Provided [arraySetRemove] removes one occurrence of its item, and
    starting from a scene in which every live drawable is in one partition,
    once, [commit] leaves the live list holding exactly the drawables of
    the two partitions, so [count] is the size of [primitives] plus that of
    [volumes]; this holds after an interrupted call too. *)
Theorem commit_keeps_partition (clock : nat -> float) (maxTimeMs : float) (b : bool)
  (w w' : World) (s s' : Scene) :
  partitioned s ->
  commit clock maxTimeMs w s = Some (b, w', s') ->
  renderables s' ≡ₚ primitives s' ++ volumes s' /\
  get_count s' = Z.of_nat (length (primitives s')) + Z.of_nat (length (volumes s')).
Proof.
  intros Hs Hcommit.
  assert (Hsplit : renderables s' ≡ₚ primitives s' ++ volumes s').
  { destruct (commit_cases clock maxTimeMs w s) as [(nr & _ & Hc)|[(na & _ & _ & Hc)|Hc]];
      rewrite Hc in Hcommit.
    - injection Hcommit as <- <- <-. by apply (partialDrain_split nr 0 w s).
    - injection Hcommit as <- <- <-. by apply (partialDrain_split _ na w s).
    - rewrite <- partialDrain_all in Hcommit. unfold finishCommit in Hcommit.
      destruct (arraySort _ _) as [sorted|] eqn:Hsort; [|done]. cbn in Hcommit.
      injection Hcommit as <- <- <-. cbn [renderables primitives volumes setAverages setRenderables].
      rewrite (arraySort_perm _ _ _ Hsort). by apply (partialDrain_split _ _ w s). }
  split; [exact Hsplit|].
  unfold get_count. rewrite Hsplit, length_app. lia.
Qed.

End Partition.

(** ** The cluster colour theme *)

Section Theme.
Import ClusterTheme.
Local Set Warnings "-clear-no-such-hyp".

Lemma setMember_lookup i m member key :
  setMember i m member !! key = if bool_decide (key ∈ keysOf member) then Some i else m !! key.
Proof.
  unfold setMember, keysOf. cbv zeta.
  destruct (default [] (pdbx_struct_oper_list_ids member)) as [|op ops]; cbn.
  - case_bool_decide as Hin.
    + apply elem_of_cons in Hin as [->|Hin]; [|apply list_elem_of_singleton in Hin as ->].
      * destruct (decide (clusterMemberKey (asym_id member) ["1"%string]
                          = clusterMemberKey (asym_id member) [])) as [->|Hne].
        -- by rewrite lookup_insert_eq.
        -- rewrite lookup_insert_ne by done. by rewrite lookup_insert_eq.
      * by rewrite lookup_insert_eq.
    + rewrite !lookup_insert_ne; [done| |]; intros <-; apply Hin; set_solver.
  - case_bool_decide as Hin.
    + apply list_elem_of_singleton in Hin as ->. by rewrite lookup_insert_eq.
    + rewrite lookup_insert_ne; [done|]. intros <-. apply Hin. set_solver.
Qed.

Lemma setMembers_lookup i ms : forall m key,
  fold_left (setMember i) ms m !! key
  = if existsb (fun member => bool_decide (key ∈ keysOf member)) ms then Some i else m !! key.
Proof.
  induction ms as [|member ms IH]; intros m key; [reflexivity|].
  cbn [fold_left existsb]. rewrite IH, setMember_lookup.
  by destruct (existsb _ ms), (bool_decide _).
Qed.

Lemma clusterByMember_snoc cs c key :
  clusterByMember (cs ++ [c]) !! key
  = if claims c key then Some (length cs) else clusterByMember cs !! key.
Proof.
  unfold clusterByMember. rewrite imap_app, fold_left_app. cbn [imap fold_left fst snd].
  rewrite setMembers_lookup. by rewrite Nat.add_0_r.
Qed.


Lemma clusterByMember_nil key : clusterByMember [] !! key = None.
Proof. reflexivity. Qed.

(** X20.  [clusterByMember] maps a key to the index of the last cluster
    that has a member entered under it, and has no entry exactly for the
    keys no cluster has a member under.  (A member is entered under its
    asym id with its operator list and, when that list is empty or
    missing, also under its asym id with the single operator 1.) *)
Theorem clusterByMember_last_claim cs key :
  (forall i, clusterByMember cs !! key = Some i <->
     (exists c, cs !! i = Some c /\ claims c key = true) /\
     (forall j c', (i < j)%nat -> cs !! j = Some c' -> claims c' key = false)) /\
  (clusterByMember cs !! key = None <-> forall c, c ∈ cs -> claims c key = false).
Proof.
  induction cs as [|c cs [IHsome IHnone]] using rev_ind.
  - split; [intros i; split|split].
    + by rewrite clusterByMember_nil.
    + by intros [(c & Hc & _) _].
    + intros _ c Hc. by apply elem_of_nil in Hc.
    + intros _. apply clusterByMember_nil.
  - split; [intros i|]; rewrite clusterByMember_snoc; destruct (claims c key) eqn:Hc.
    + split.
      * intros [= <-]. split.
        -- exists c. by rewrite list_lookup_middle.
        -- intros j c' Hj Hl. apply lookup_lt_Some in Hl. rewrite length_app in Hl. cbn in Hl. lia.
      * intros [(ci & Hi & Hci) Hlast].
        pose proof (lookup_lt_Some _ _ _ Hi) as Hlt. rewrite length_app in Hlt. cbn in Hlt.
        destruct (decide (i = length cs)) as [->|Hne]; [done|].
        assert (Hfalse : claims c key = false).
        { apply (Hlast (length cs)); [lia|]. by rewrite list_lookup_middle. }
        congruence.
    + rewrite IHsome. split.
      * intros [(ci & Hi & Hci) Hlast]. split.
        -- exists ci. split; [|done]. by apply lookup_app_l_Some.
        -- intros j c' Hj Hl. apply lookup_app_Some in Hl as [Hl|[Hge Hl]].
           ++ by apply (Hlast j).
           ++ apply list_lookup_singleton_Some in Hl as [_ <-]. done.
      * intros [(ci & Hi & Hci) Hlast]. split.
        -- exists ci. split; [|done].
           apply lookup_app_Some in Hi as [Hi|[Hge Hi]]; [done|].
           apply list_lookup_singleton_Some in Hi as [_ <-]. congruence.
        -- intros j c' Hj Hl. apply (Hlast j); [done|]. by apply lookup_app_l_Some.
    + split; [done|]. intros Hall. assert (Hf : claims c key = false) by (apply Hall; set_solver).
      congruence.
    + rewrite IHnone. split.
      * intros Hall c' Hin. apply elem_of_app in Hin as [Hin|Hin]; [by apply Hall|].
        by apply list_elem_of_singleton in Hin as ->.
      * intros Hall c' Hin. apply Hall. set_solver.
Qed.

Lemma claims_member c member key :
  member ∈ members c -> key ∈ keysOf member -> claims c key = true.
Proof.
  intros Hm Hk. unfold claims. apply existsb_exists. exists member. split.
  - by apply list_elem_of_In.
  - by apply bool_decide_eq_true.
Qed.

(** X21.  Where a structure is there, an element location gets the
    palette colour of the last cluster that lists a member with its asym
    id and operator list; a member listed without operators also matches
    a location whose only operator is 1.  The asym id of the location is
    the label asym id for an atomic unit, the coarse one otherwise. *)
Theorem color_of_member getPalette cs i c member kind label coarse operList :
  cs !! i = Some c ->
  member ∈ members c ->
  getAsymId kind label coarse = asym_id member ->
  (operList = default [] (pdbx_struct_oper_list_ids member) \/
   default [] (pdbx_struct_oper_list_ids member) = [] /\ operList = ["1"%string]) ->
  (forall j c', (i < j)%nat -> cs !! j = Some c' ->
     claims c' (clusterMemberKey (asym_id member) operList) = false) ->
  color getPalette true (Some cs) (ElementLocation kind label coarse operList)
  = getPalette (length cs) i.
Proof.
  intros Hi Hm Hasym Hops Hlast. unfold color.
  pose proof (lookup_lt_Some _ _ _ Hi) as Hlt.
  destruct (length cs =? 0)%nat eqn:Hlen; [apply Nat.eqb_eq in Hlen; lia|].
  cbn [negb andb]. cbv zeta. rewrite Hasym.
  assert (Hkey : clusterMemberKey (asym_id member) operList ∈ keysOf member).
  { unfold keysOf. cbv zeta. destruct Hops as [->|[-> ->]]; set_solver. }
  destruct (clusterByMember_last_claim cs (clusterMemberKey (asym_id member) operList))
    as [Hsome _].
  assert (Hl : clusterByMember cs !! clusterMemberKey (asym_id member) operList = Some i).
  { apply Hsome. split; [|done]. exists c. split; [done|]. by apply (claims_member c member). }
  by rewrite Hl.
Qed.

(** X22.  The theme colour is the default colour when there is no
    structure, for a location that is not an element location, and for an
    element location under whose key no cluster has a member (so also
    when there are no clusters at all). *)
Theorem color_default getPalette hasStructure clusters location :
  (hasStructure = false \/
   location = OtherLocation \/
   forall cs kind label coarse operList,
     clusters = Some cs ->
     location = ElementLocation kind label coarse operList ->
     forall c, c ∈ cs ->
       claims c (clusterMemberKey (getAsymId kind label coarse) operList) = false) ->
  color getPalette hasStructure clusters location = DefaultColor.
Proof.
  intros H. unfold color. destruct clusters as [cs|]; [|done].
  destruct (negb (length cs =? 0)%nat) ; [|done].
  destruct hasStructure; [|done]. cbn [andb].
  destruct location as [kind label coarse operList|]; [|done]. cbv zeta.
  destruct H as [H|[H|H]]; [done..|].
  destruct (clusterByMember_last_claim cs
              (clusterMemberKey (getAsymId kind label coarse) operList)) as [_ Hnone].
  rewrite (proj2 Hnone); [done|]. by apply (H cs kind label coarse operList).
Qed.

End Theme.

(** ** The scene at work: concrete runs *)

Section Examples.
Import Sim.

(** The spec's example: one visible opaque primitive and one hidden
    primitive with other values give the opacity average 1. *)
Example opacityAverage_ignores_hidden :
  let r := twoMeshes oneHiddenWorld in
  returned r = Some true /\
  primitives (sceneAfter r) = [r1; r2] /\
  visible (state (worldAfter oneHiddenWorld r) r2) = false /\
  get_opacityAverage (sceneAfter r) = 1%float.
Proof. cbv zeta. repeat split; vm_compute; reflexivity. Qed.

(** C1, counterexample.  101 additions are pending, the budget is 0, and
    the clock reads the same value at the start and after the first batch:
    [commit] runs all 101 and returns [true] with an empty queue. *)
Lemma commit_zero_budget_frozen_clock :
  let s := queued [] (meshes 101) in
  let r := commit frozenClock 0%float world0 s in
  (100 < pending (commitQueue s))%nat /\
  returned r = Some true /\
  isEmpty (commitQueue (sceneAfter r)) = true /\
  get_count (sceneAfter r) = 101.
Proof. cbv zeta. split; [vm_compute; lia|]. repeat split; vm_compute; reflexivity. Qed.

(** C1, witness: the same scene with a clock that ticks and with a
    second call. *)
Lemma commit_time_sliced_witness :
  let s := queued [] (meshes 101) in
  (exists w' s', commit tickingClock 0%float world0 s = Some (false, w', s') /\
                 isEmpty (commitQueue s') = false) /\
  commitRepeat 1 (fun _ => tickingClock) (fun _ => 0%float) world0 s
  = finishCommit (drainAll world0 s).1 (drainAll world0 s).2 /\
  exists sF, finishCommit (drainAll world0 s).1 (drainAll world0 s).2
             = Some (true, (drainAll world0 s).1, sF) /\
             isEmpty (commitQueue sF) = true.
Proof.
  cbv zeta.
  destruct (commit_time_sliced world0 (queued [] (meshes 101))) as (Ha & Hb & Hc).
  split; [apply Ha; [vm_compute; lia | vm_compute; reflexivity]|].
  split; [apply Hb; vm_compute; lia|].
  edestruct Hc as (sF & H1 & H2 & _); [vm_compute; reflexivity|].
  exists sF. split; assumption.
Defined.

(** C4, counterexample.  One visible primitive with marker coverage 0.5 is
    added; [commit] completes and the marker average is still 0. *)
Lemma commit_leaves_markerAverage_stale :
  let r := oneMesh world0 in
  returned r = Some true /\
  get_markerAverage (sceneAfter r) = 0%float /\
  calculateMarkerAverage (worldAfter world0 r) (sceneAfter r) = 0.5%float /\
  get_markerAverage (sceneAfter r)
    <> calculateMarkerAverage (worldAfter world0 r) (sceneAfter r).
Proof.
  cbv zeta. do 3 (split; [vm_compute; reflexivity|]).
  apply float_neq; vm_compute; reflexivity.
Qed.

(** C4, witness. *)
Lemma averages_recomputed_witness :
  let r := oneMesh world0 in
  opacityAverage (sceneAfter r) = calculateOpacityAverage (worldAfter world0 r) (sceneAfter r) /\
  markerAverage (sceneAfter r) = markerAverage (queued [] [mesh 1]).
Proof.
  cbv zeta.
  destruct (averages_recomputed world0 (queued [] [mesh 1])) as (_ & Hcommit & _).
  apply (Hcommit frozenClock Number_MAX_VALUE).
  apply returned_Some. vm_compute; reflexivity.
Defined.

(** C6, counterexample.  A scene with one visible, opaque, half marked
    primitive, committed and updated, is cleared: the count is 0, the
    averages read 0.5 and 1. *)
Lemma clear_keeps_averages :
  let r := oneMesh world0 in
  let ws2 := update None false (worldAfter world0 r) (sceneAfter r) in
  let ws3 := clear ws2.1 ws2.2 in
  returned r = Some true /\
  get_count ws3.2 = 0 /\
  get_markerAverage ws3.2 = 0.5%float /\
  get_opacityAverage ws3.2 = 1%float /\
  get_markerAverage ws3.2 <> 0%float /\
  get_opacityAverage ws3.2 <> 0%float.
Proof.
  cbv zeta. do 4 (split; [vm_compute; reflexivity|]).
  split; apply float_neq; vm_compute; reflexivity.
Qed.

(** C6, witness. *)
Lemma clear_then_read_witness :
  let r := oneMesh world0 in
  let ws := clear (worldAfter world0 r) (sceneAfter r) in
  get_count ws.2 = 0 /\
  (get_boundingSphere ws.1 ws.2).1 = Sphere3D_zero /\
  get_opacityAverage ws.2 = 1%float /\
  get_opacityAverage (update None true ws.1 ws.2).2 = 0%float.
Proof.
  cbv zeta.
  destruct (clear_then_read (worldAfter world0 (oneMesh world0))
              (sceneAfter (oneMesh world0))) as (Hcount & Hsphere & _ & _ & Hop & Hupd).
  split; [exact Hcount|].
  split; [by destruct (Hsphere (clear (worldAfter world0 (oneMesh world0))
                                  (sceneAfter (oneMesh world0))).1) as [-> _]|].
  split; [rewrite Hop; vm_compute; reflexivity|]. apply Hupd.
Defined.

(** C8, witness. *)
Lemma add_registered_is_noop_witness :
  let r := oneMesh world0 in
  let w := worldAfter world0 r in
  let s := sceneAfter r in
  renderableMap s !! mesh 1 = Some r1 /\
  add (mesh 1) w s = (r1, console_warn w (mesh 1), s).
Proof.
  cbv zeta. split; [|apply add_registered_is_noop]; vm_compute; reflexivity.
Defined.

(** C9, witness. *)
Lemma boundingSphereVisible_read_witness :
  let r := twoMeshes oneHiddenWorld in
  let w := worldAfter oneHiddenWorld r in
  let s := sceneAfter r in
  boundingSphereVisibleDirty s = true /\
  (syncVisibility w s).1 = true /\
  (get_boundingSphereVisible w s).1 = unitSphere /\
  syncVisibility w (get_boundingSphereVisible w s).2 = (false, (get_boundingSphereVisible w s).2).
Proof.
  cbv zeta. do 3 (split; [vm_compute; reflexivity|]).
  destruct (boundingSphereVisible_read_refreshes_fingerprint (E := sim)
              (worldAfter oneHiddenWorld (twoMeshes oneHiddenWorld))
              (sceneAfter (twoMeshes oneHiddenWorld))) as (_ & _ & _ & _ & Hsync);
    [vm_compute; reflexivity|].
  apply Hsync. reflexivity.
Defined.

(** C10, witness.  Renderable 1 is opaque and committed, so the opacity
    average is 1; then 101 additions are queued (100 of them new and half
    transparent) and [commit] is interrupted after 100 operations. *)
Lemma commit_incomplete_frame_witness :
  let r := oneMesh mixedWorld in
  let r' := commit tickingClock 0%float (worldAfter mixedWorld r)
              (enqueue [] (meshes 101) (sceneAfter r)) in
  returned r' = Some false /\
  opacityAverage (sceneAfter r) = 1%float /\
  markerAverage (sceneAfter r') = markerAverage (sceneAfter r) /\
  opacityAverage (sceneAfter r') = opacityAverage (sceneAfter r) /\
  get_count (sceneAfter r') = 101 /\
  opacityAverage (sceneAfter r')
    <> calculateOpacityAverage (worldAfter mixedWorld r') (sceneAfter r').
Proof.
  cbv zeta. do 2 (split; [vm_compute; reflexivity|]).
  destruct (commit_incomplete_frame tickingClock 0%float
              (worldAfter mixedWorld (oneMesh mixedWorld))
              (worldAfter mixedWorld
                 (commit tickingClock 0%float (worldAfter mixedWorld (oneMesh mixedWorld))
                    (enqueue [] (meshes 101) (sceneAfter (oneMesh mixedWorld)))))
              (enqueue [] (meshes 101) (sceneAfter (oneMesh mixedWorld)))
              (sceneAfter
                 (commit tickingClock 0%float (worldAfter mixedWorld (oneMesh mixedWorld))
                    (enqueue [] (meshes 101) (sceneAfter (oneMesh mixedWorld))))))
    as (Hm & Ho & _).
  { apply returned_Some. vm_compute; reflexivity. }
  split; [exact Hm|]. split; [exact Ho|]. split; [vm_compute; reflexivity|].
  apply float_neq; vm_compute; reflexivity.
Defined.

(** C5.  Two drawables without a colorBlended program, with colorWboit
    programs 2 and 1: the comparator takes the program of the second from
    the first, finds them equal and falls through to the ids; after a
    complete [commit] the drawable with program 2 comes first. *)
Theorem renderableSort_reads_fallback_from_a :
  let r := twoMeshes wboitWorld in
  let w := worldAfter wboitWorld r in
  returned r = Some true /\
  renderables (sceneAfter r) = [r1; r2] /\
  drawProgramId w r1 = Some 2 /\
  drawProgramId w r2 = Some 1 /\
  renderableSort w r1 r2 = Some (r_id r1 - r_id r2) /\
  renderableSort w r2 r1 = Some (r_id r2 - r_id r1).
Proof. cbv zeta. repeat split; vm_compute; reflexivity. Qed.

(** C3, counterexample.  Two drawables are committed and the visible-only
    sphere is read, so the fingerprint is stored; then one drawable is
    hidden from outside.  The first [syncVisibility] reports the change,
    and the second, with nothing touched in between, reports it again. *)
Lemma syncVisibility_reports_change_twice :
  let r := twoMeshes world0 in
  let w := worldAfter world0 r in
  let s1 := (get_boundingSphereVisible w (sceneAfter r)).2 in
  (syncVisibility w s1).1 = false /\
  (syncVisibility (hide 2 w) s1).1 = true /\
  (syncVisibility (hide 2 w) (syncVisibility (hide 2 w) s1).2).1 = true.
Proof. cbv zeta. repeat split; vm_compute; reflexivity. Qed.

(** C3, witness: the same run, with the sphere read between the calls. *)
Lemma syncVisibility_twice_witness :
  let r := twoMeshes world0 in
  let w := worldAfter world0 r in
  let s1 := (get_boundingSphereVisible w (sceneAfter r)).2 in
  let s2 := (get_boundingSphereVisible (hide 2 w) (syncVisibility (hide 2 w) s1).2).2 in
  (syncVisibility (hide 2 w) s1).1 = true /\
  syncVisibility (hide 2 w) s2 = (false, s2).
Proof.
  cbv zeta.
  destruct (syncVisibility_twice (hide 2 (worldAfter world0 (twoMeshes world0)))
              (get_boundingSphereVisible (worldAfter world0 (twoMeshes world0))
                 (sceneAfter (twoMeshes world0))).2) as (_ & _ & _ & Hread).
  assert (Hchanged : (syncVisibility (hide 2 (worldAfter world0 (twoMeshes world0)))
                        (get_boundingSphereVisible (worldAfter world0 (twoMeshes world0))
                           (sceneAfter (twoMeshes world0))).2).1 = true)
    by (vm_compute; reflexivity).
  split; [exact Hchanged|]. apply Hread; [reflexivity | exact Hchanged].
Defined.

End Examples.

(** ** Further concrete runs *)

Section FurtherExamples.
Import Sim.

Lemma sim_removesOneOccurrence : removesOneOccurrence (E := Sim.sim).
Proof.
  intros xs x. cbn. induction xs as [|y ys [IH1 IH2]]; cbn.
  - split; [by intros ?%elem_of_nil | done].
  - destruct (decide (y = x)) as [->|Hne].
    + split; [done|]. intros Hout. exfalso. apply Hout. by left.
    + split.
      * intros [->|Hin]%elem_of_cons; [done|]. rewrite (IH1 Hin) at 1. apply Permutation_swap.
      * intros Hout. f_equal. apply IH2. intros Hin. apply Hout. by right.
Qed.

(** X1, witness: three additions, a clock that ticks and no budget. *)
Lemma commit_small_queue_completes_witness :
  let s := queued [] (meshes 3) in
  (pending (commitQueue s) < 100)%nat /\
  commit tickingClock 0%float world0 s = finishCommit (drainAll world0 s).1 (drainAll world0 s).2.
Proof.
  cbv zeta. split; [vm_compute; lia|].
  apply (commit_small_queue_completes tickingClock 0%float world0 (queued [] (meshes 3))).
  vm_compute; lia.
Defined.

(** X2, witness: 101 additions, no budget and a clock that stands still. *)
Lemma commit_within_budget_completes_witness :
  let s := queued [] (meshes 101) in
  withinBudget frozenClock 0%float /\
  commit frozenClock 0%float world0 s = finishCommit (drainAll world0 s).1 (drainAll world0 s).2.
Proof.
  cbv zeta.
  assert (Hbudget : withinBudget frozenClock 0%float)
    by (intros k; vm_compute; reflexivity).
  split; [exact Hbudget|].
  exact (commit_within_budget_completes frozenClock 0%float world0 (queued [] (meshes 101))
           Hbudget).
Defined.

(** X4, witness: exactly 100 additions, no budget and a clock that ticks. *)
Lemma commit_exact_batch_returns_false_witness :
  let s := queued [] (meshes 100) in
  pending (commitQueue s) = 100%nat /\
  commit tickingClock 0%float world0 s
  = Some (false, (drainAll world0 s).1, (drainAll world0 s).2) /\
  needsCommit (drainAll world0 s).2 = false.
Proof.
  cbv zeta. split; [vm_compute; reflexivity|].
  destruct (commit_exact_batch_returns_false tickingClock 0%float world0
              (queued [] (meshes 100))) as (Hc & Hn & _);
    [vm_compute; reflexivity | vm_compute; reflexivity |].
  split; assumption.
Defined.

(** X5, witness: a second [commit] on a scene of two meshes. *)
Lemma commit_empty_queue_witness :
  let r := twoMeshes world0 in
  let w := worldAfter world0 r in
  let s := sceneAfter r in
  isEmpty (commitQueue s) = true /\
  commit tickingClock 0%float w s = finishCommit w s.
Proof.
  cbv zeta. split; [vm_compute; reflexivity|].
  apply (commit_empty_queue tickingClock 0%float (worldAfter world0 (twoMeshes world0))
           (sceneAfter (twoMeshes world0))).
  vm_compute; reflexivity.
Defined.

(** X6, witness: on a scene of two meshes, mesh 1 is removed and mesh 3
    added. *)
Lemma commit_registers_queue_witness :
  let r0 := twoMeshes world0 in
  let s := enqueue [mesh 1] [mesh 3] (sceneAfter r0) in
  let r := commit frozenClock Number_MAX_VALUE (worldAfter world0 r0) s in
  returned r = Some true /\
  has (mesh 1) (sceneAfter r) = false /\
  has (mesh 2) (sceneAfter r) = true /\
  has (mesh 3) (sceneAfter r) = true.
Proof.
  cbv zeta.
  assert (Hr : returned (commit frozenClock Number_MAX_VALUE (worldAfter world0 (twoMeshes world0))
                           (enqueue [mesh 1] [mesh 3] (sceneAfter (twoMeshes world0))))
               = Some true) by (vm_compute; reflexivity).
  split; [exact Hr|].
  destruct (commit_registers_queue frozenClock Number_MAX_VALUE _ _ _ _
              (returned_Some _ _ world0 Hr)) as [_ Hhas].
  rewrite !Hhas. repeat split; vm_compute; reflexivity.
Defined.

(** X8, witness: both spheres of a scene of two meshes are read, then
    mesh 1 is removed. *)
Lemma commit_invalidates_spheres_witness :
  let r0 := twoMeshes world0 in
  let w := worldAfter world0 r0 in
  let s1 := (get_boundingSphereVisible w (get_boundingSphere w (sceneAfter r0)).2).2 in
  let r := commit frozenClock Number_MAX_VALUE w (enqueue [mesh 1] [] s1) in
  returned r = Some true /\
  boundingSphereDirty s1 = false /\
  boundingSphereDirty (sceneAfter r) = true /\
  boundingSphereVisibleDirty (sceneAfter r) = true.
Proof.
  cbv zeta.
  set (w := worldAfter world0 (twoMeshes world0)).
  set (s := enqueue [mesh 1] []
              (get_boundingSphereVisible w (get_boundingSphere w (sceneAfter (twoMeshes world0))).2).2).
  assert (Hr : returned (commit frozenClock Number_MAX_VALUE w s) = Some true)
    by (vm_compute; reflexivity).
  split; [exact Hr|]. split; [vm_compute; reflexivity|].
  destruct (commit_invalidates_spheres frozenClock Number_MAX_VALUE true w _ s _
              (returned_Some _ _ world0 Hr)) as (_ & _ & [[Hd Hv]|(Hmap & _)]).
  - split; assumption.
  - exfalso. assert (Hne : has (mesh 1) (sceneAfter (commit frozenClock Number_MAX_VALUE w s))
                           = has (mesh 1) s) by (unfold has; by rewrite Hmap).
    vm_compute in Hne. discriminate Hne.
Defined.

(** X9, witness: two meshes. *)
Lemma commit_sort_permutes_witness :
  let s := queued [] [mesh 1; mesh 2] in
  let r := twoMeshes world0 in
  returned r = Some true /\
  renderables (sceneAfter r) ≡ₚ renderables (drainAll world0 s).2 /\
  get_count (sceneAfter r) = get_count (drainAll world0 s).2.
Proof.
  cbv zeta.
  assert (Hr : returned (twoMeshes world0) = Some true) by (vm_compute; reflexivity).
  split; [exact Hr|].
  destruct (commit_sort_permutes frozenClock Number_MAX_VALUE world0 _
              (queued [] [mesh 1; mesh 2]) _ (returned_Some _ _ world0 Hr))
    as (Hperm & Hcount & _).
  split; assumption.
Defined.

(** X10, witness: two meshes in a world where every drawable has both
    programs. *)
Lemma commit_sorts_colorBlended_witness :
  let r := twoMeshes world0 in
  returned r = Some true /\
  StronglySorted (drawOrder (worldAfter world0 r)) (renderables (sceneAfter r)).
Proof.
  cbv zeta.
  assert (Hr : returned (twoMeshes world0) = Some true) by (vm_compute; reflexivity).
  split; [exact Hr|].
  apply (commit_sorts_colorBlended frozenClock Number_MAX_VALUE world0
           (queued [] [mesh 1; mesh 2]) _ _ (returned_Some _ _ world0 Hr)).
  intros r _. exists {| p_id := r_id r |}. vm_compute; reflexivity.
Defined.

(** X12, witness: two meshes in a world without programs. *)
Lemma commit_throws_only_if_witness :
  let s := queued [] [mesh 1; mesh 2] in
  commit frozenClock Number_MAX_VALUE bareWorld s = None /\
  (2 <= length (renderables (drainAll bareWorld s).2))%nat.
Proof.
  cbv zeta.
  assert (Hc : commit frozenClock Number_MAX_VALUE bareWorld (queued [] [mesh 1; mesh 2]) = None)
    by (vm_compute; reflexivity).
  split; [exact Hc|].
  exact (proj1 (commit_throws_only_if frozenClock Number_MAX_VALUE bareWorld _ Hc)).
Defined.

(** X16, witness: mesh 2 is hidden when the fingerprint is stored; its
    removal does not show in [syncVisibility]. *)
Lemma syncVisibility_sees_visible_ids_only_witness :
  let r0 := twoMeshes oneHiddenWorld in
  let w0 := worldAfter oneHiddenWorld r0 in
  let s0 := (get_boundingSphereVisible w0 (sceneAfter r0)).2 in
  let r := commit frozenClock Number_MAX_VALUE w0 (enqueue [mesh 2] [] s0) in
  let w := worldAfter w0 r in
  returned r = Some true /\
  get_count s0 = 2 /\
  get_count (sceneAfter r) = 1 /\
  syncVisibility w (sceneAfter r) = (false, sceneAfter r).
Proof.
  cbv zeta. do 3 (split; [vm_compute; reflexivity|]).
  set (w0 := worldAfter oneHiddenWorld (twoMeshes oneHiddenWorld)).
  set (s0 := (get_boundingSphereVisible w0 (sceneAfter (twoMeshes oneHiddenWorld))).2).
  set (r := commit frozenClock Number_MAX_VALUE w0 (enqueue [mesh 2] [] s0)).
  apply (syncVisibility_sees_visible_ids_only (worldAfter w0 r) w0 (sceneAfter r) s0);
    vm_compute; reflexivity.
Defined.

(** X13, witness: on a scene of two meshes and a volume, mesh 1 is
    removed and mesh 4 added. *)
Lemma commit_keeps_partition_witness :
  let r0 := commit frozenClock Number_MAX_VALUE world0 (queued [] [mesh 1; volume 2; mesh 3]) in
  let s := enqueue [mesh 1] [mesh 4] (sceneAfter r0) in
  let r := commit frozenClock Number_MAX_VALUE (worldAfter world0 r0) s in
  removesOneOccurrence (E := sim) /\
  partitioned s /\
  returned r = Some true /\
  renderables (sceneAfter r) ≡ₚ primitives (sceneAfter r) ++ volumes (sceneAfter r) /\
  get_count (sceneAfter r) = 3.
Proof.
  cbv zeta.
  set (r0 := commit frozenClock Number_MAX_VALUE world0 (queued [] [mesh 1; volume 2; mesh 3])).
  set (s := enqueue [mesh 1] [mesh 4] (sceneAfter r0)).
  assert (Hs : partitioned s).
  { split.
    - apply (bool_decide_unpack (NoDup (renderables s))). vm_compute. exact I.
    - vm_compute. apply perm_skip, perm_swap. }
  assert (Hr : returned (commit frozenClock Number_MAX_VALUE (worldAfter world0 r0) s) = Some true)
    by (vm_compute; reflexivity).
  split; [exact sim_removesOneOccurrence|]. split; [exact Hs|]. split; [exact Hr|].
  split; [|vm_compute; reflexivity].
  exact (proj1 (commit_keeps_partition sim_removesOneOccurrence frozenClock Number_MAX_VALUE
                  true _ _ s _ Hs (returned_Some _ _ world0 Hr))).
Defined.

End FurtherExamples.

Section ThemeExamples.
Import ClusterTheme.

(** X21, witness: member A of cluster 1 has no operators, member B of
    cluster 2 has operators 1 and 2. *)
Lemma color_of_member_witness :
  color indexPalette true (Some threeClusters) (ElementLocation Atomic "A" "" ["1"%string])
  = indexPalette 3 1 /\
  color indexPalette true (Some threeClusters) (ElementLocation Spheres "" "B" ["1"; "2"]%string)
  = indexPalette 3 2.
Proof.
  split.
  - apply (color_of_member indexPalette threeClusters 1 {| members := [memberB; memberA] |} memberA).
    + reflexivity.
    + cbn. right. left.
    + reflexivity.
    + right. split; reflexivity.
    + intros [|[|[|j]]] c' Hj; try lia; cbn.
      * intros [= <-]. vm_compute. reflexivity.
      * discriminate.
  - apply (color_of_member indexPalette threeClusters 2 {| members := [memberB] |} memberB).
    + reflexivity.
    + cbn. left.
    + reflexivity.
    + left. reflexivity.
    + intros [|[|[|j]]] c' Hj; try lia; cbn. discriminate.
Defined.

(** X22, witness: no cluster lists chain A with operator 2. *)
Lemma color_default_witness :
  color indexPalette true (Some threeClusters) (ElementLocation Atomic "A" "" ["2"%string])
  = DefaultColor.
Proof.
  apply color_default. right. right.
  intros cs kind label coarse operList [= <-] [= <- <- <- <-] c Hc.
  unfold threeClusters in Hc. rewrite !elem_of_cons in Hc.
  destruct Hc as [->|[->|[->|Hc]]]; [vm_compute; reflexivity..|by apply elem_of_nil in Hc].
Defined.

End ThemeExamples.
